(** * Order lifecycle and payment settlement of api-mantas-trenzas

    A shallow embedding of the order entity ([Pedido]), the MySQL order
    repository ([MySQLPedidoRepository]), the order service
    ([PedidoService]) and the Stripe wrapper ([StripeService]), followed by
    the properties of the order lifecycle that hold, or fail, on that code.

    Conventions of the embedding:
    - a JavaScript [number] that holds an amount or a quantity of an order
      is a binary64 float, as in the engine, with the engine's [+] and [*]
      ([PrimFloat]); keys and the epoch milliseconds of a [Date] are
      integers, so [Z];
    - a property that can be missing keeps the difference between
      [undefined] and [null], which the MySQL driver does not treat alike;
    - a [PedidoItem] is a mutable object that several holders can share, so
      items live in a heap and an order holds references to them;
    - asynchronous calls are run to completion one after the other: the
      embedding is the sequential semantics of one request;
    - what the code gets from outside (the clock, [Math.random], storage
      failures, the answers of the Stripe API) is read from oracles carried
      by the state, so every run of the code is a run of the model for some
      oracle. *)

From stdpp Require Import base strings list gmap pretty.
From Stdlib Require Import ZArith Lia PrimFloat.

Open Scope Z_scope.

(** ** Values of the language *)

(** A [number] that is computed with. *)
Abbreviation number := PrimFloat.float.

(** [Number.MAX_SAFE_INTEGER]: up to it the whole numbers are doubles and
    the engine subtracts them exactly. *)
Definition MAX_SAFE_INTEGER : Z := 2 ^ 53 - 1.

(** A property that can be missing: [undefined] when it was never given,
    [null], or a value. *)
Inductive Nullable (A : Type) : Type :=
  | Undefined
  | Null
  | Present (a : A).
Arguments Undefined {A}.
Arguments Null {A}.
Arguments Present {A} a.

(** What a column read from the database gives: [null] for NULL. *)
Definition of_column {A : Type} (c : option A) : Nullable A :=
  match c with
  | None => Null
  | Some a => Present a
  end.

(** What a column gets from a value that is bound to it: NULL for [null]. *)
Definition column_of {A : Type} (v : Nullable A) : option A :=
  match v with
  | Present a => Some a
  | _ => None
  end.

(** ** Data model (domain/entities/Pedido) *)

Inductive EstadoPedido : Type :=
  | PENDIENTE
  | PAGADO
  | ENVIADO
  | ENTREGADO
  | CANCELADO.

#[global] Instance EstadoPedido_eq_dec : EqDecision EstadoPedido.
Proof. solve_decision. Defined.

(** [MetodoPago] is a string enum; the value of an order read back from
    storage is whatever string the column holds, and [procesarPago] has a
    [default] branch for it, so the method is kept as a string. *)
Definition STRIPE : string := "stripe".
Definition PAYPAL : string := "paypal".
Definition TRANSFERENCIA : string := "transferencia".

Record PedidoItem : Type := mkPedidoItem {
  productoId : Z;
  cantidad : number;
  precioUnitario : number;
  subtotal : number
}.

(** A reference to an item object. *)
Definition loc : Type := nat.

(** The fields of a [Pedido] object, named as its getters. [getItems] is the
    array of item references held by the order; the item objects are shared
    with whoever else holds them (the array is the order's own here: the
    code shares it with the [props] it was built from until [removeItem]
    replaces it, and no operation of the order depends on that). *)
Record Pedido : Type := mkPedido {
  getId : option Z;
  getUsuarioId : Z;
  getEstado : EstadoPedido;
  getTotal : number;
  getDireccionEnvio : string;
  getMetodoPago : string;
  getReferenciaPago : Nullable string;
  getItems : list loc;
  getCreatedAt : Z;
  getUpdatedAt : Z
}.

(** [PedidoProps]: [None] stands for a property that is absent (or, for
    [estado] and [items], falsy); [referenciaPago] is stored as it comes. *)
Record PedidoProps : Type := mkPedidoProps {
  props_id : option Z;
  props_usuarioId : Z;
  props_estado : option EstadoPedido;
  props_total : number;
  props_direccionEnvio : string;
  props_metodoPago : string;
  props_referenciaPago : Nullable string;
  props_items : option (list loc);
  props_createdAt : option Z;
  props_updatedAt : option Z
}.

(** ** Storage: the tables [pedidos] and [pedido_items]

    The tables are as the statements of the repository read and write
    them: the columns of a row of [pedidos], keyed by its [id], and the rows
    of [pedido_items]. *)

Record PedidoRow : Type := mkPedidoRow {
  usuario_id : Z;
  row_estado : EstadoPedido;
  row_total : number;
  direccion_envio : string;
  metodo_pago : string;
  referencia_pago : option string;
  created_at : Z;
  updated_at : Z
}.

Record ItemRow : Type := mkItemRow {
  pedido_id : Z;
  producto_id : Z;
  row_cantidad : number;
  precio_unitario : number;
  row_subtotal : number
}.

(** ** Outcomes of calls

    A call returns a value or throws. A thrown value is an [Error], of which
    the code only ever reads the [message]. *)

Inductive Outcome (A : Type) : Type :=
  | Ok (a : A)
  | Throw (message : string).
Arguments Ok {A} a.
Arguments Throw {A} message.

(** The calls that [StripeService.confirmPayment] makes to the Stripe API. *)
Inductive GatewayCall : Type :=
  | PaymentIntentsRetrieve (paymentIntentId : string)
  | PaymentIntentsConfirm (paymentIntentId : string).

(** ** The state a request runs in *)

Record World : Type := mkWorld {
  heap : loc → PedidoItem;            (* item objects *)
  next_loc : loc;                     (* next fresh reference *)
  pedidos : gmap Z PedidoRow;         (* table pedidos, by id *)
  pedido_items : list ItemRow;        (* table pedido_items *)
  persisted : list (gmap Z PedidoRow);(* ghost: table pedidos after each
                                         committed write, latest first *)
  faults : list (option string);      (* oracle: does the next storage
                                         call throw, and with what message *)
  clock : list Z;                     (* oracle: readings of the clock *)
  random : list Z;                    (* oracle: Math.floor(Math.random()*1000) *)
  stripe_retrieve : string → Outcome string; (* oracle: status of an intent *)
  stripe_confirm : string → Outcome string;  (* oracle: status after confirm *)
  gateway_calls : list GatewayCall;   (* ghost: calls made to Stripe, latest first *)
  log : list string                   (* logger.error lines, latest first *)
}.

Definition set_heap (f : (loc → PedidoItem) → loc → PedidoItem) (w : World) : World :=
  mkWorld (f (heap w)) (next_loc w) (pedidos w) (pedido_items w) (persisted w)
          (faults w) (clock w) (random w) (stripe_retrieve w) (stripe_confirm w)
          (gateway_calls w) (log w).

Definition set_next_loc (f : loc → loc) (w : World) : World :=
  mkWorld (heap w) (f (next_loc w)) (pedidos w) (pedido_items w) (persisted w)
          (faults w) (clock w) (random w) (stripe_retrieve w) (stripe_confirm w)
          (gateway_calls w) (log w).

(** A committed write: the table changes and the new table is observable. *)
Definition commit_pedidos (f : gmap Z PedidoRow → gmap Z PedidoRow) (w : World) : World :=
  mkWorld (heap w) (next_loc w) (f (pedidos w)) (pedido_items w)
          (f (pedidos w) :: persisted w)
          (faults w) (clock w) (random w) (stripe_retrieve w) (stripe_confirm w)
          (gateway_calls w) (log w).

Definition set_faults (f : list (option string) → list (option string)) (w : World) : World :=
  mkWorld (heap w) (next_loc w) (pedidos w) (pedido_items w) (persisted w)
          (f (faults w)) (clock w) (random w) (stripe_retrieve w) (stripe_confirm w)
          (gateway_calls w) (log w).

Definition set_clock (f : list Z → list Z) (w : World) : World :=
  mkWorld (heap w) (next_loc w) (pedidos w) (pedido_items w) (persisted w)
          (faults w) (f (clock w)) (random w) (stripe_retrieve w) (stripe_confirm w)
          (gateway_calls w) (log w).

Definition set_random (f : list Z → list Z) (w : World) : World :=
  mkWorld (heap w) (next_loc w) (pedidos w) (pedido_items w) (persisted w)
          (faults w) (clock w) (f (random w)) (stripe_retrieve w) (stripe_confirm w)
          (gateway_calls w) (log w).

Definition set_gateway_calls (f : list GatewayCall → list GatewayCall) (w : World) : World :=
  mkWorld (heap w) (next_loc w) (pedidos w) (pedido_items w) (persisted w)
          (faults w) (clock w) (random w) (stripe_retrieve w) (stripe_confirm w)
          (f (gateway_calls w)) (log w).

Definition set_log (f : list string → list string) (w : World) : World :=
  mkWorld (heap w) (next_loc w) (pedidos w) (pedido_items w) (persisted w)
          (faults w) (clock w) (random w) (stripe_retrieve w) (stripe_confirm w)
          (gateway_calls w) (f (log w)).

(** ** The monad of a request: state and exceptions *)

Definition M (A : Type) : Type := World → Outcome A * World.

#[global] Instance M_ret : MRet M := λ A a w, (Ok a, w).

#[global] Instance M_bind : MBind M := λ A B f m w,
  match m w with
  | (Ok a, w') => f a w'
  | (Throw e, w') => (Throw e, w')
  end.

Definition throw {A : Type} (message : string) : M A := λ w, (Throw message, w).

(** [try { body } catch (error) { handler error }] *)
Definition try_catch {A : Type} (body : M A) (handler : string → M A) : M A := λ w,
  match body w with
  | (Ok a, w') => (Ok a, w')
  | (Throw e, w') => handler e w'
  end.

Definition get_world : M World := λ w, (Ok w, w).
Definition modify_world (f : World → World) : M unit := λ w, (Ok tt, f w).

(** [new Date()] and [Date.now()]: the next reading of the clock. *)
Definition new_Date : M Z := λ w,
  (Ok (default 0 (head (clock w))), set_clock tail w).

(** [Math.floor(Math.random() * 1000)]; the code gets a value in 0..999,
    the oracle is left unconstrained. *)
Definition random_1000 : M Z := λ w,
  (Ok (default 0 (head (random w))), set_random tail w).

Definition logger_error (line : string) : M unit :=
  modify_world (set_log (λ l, line :: l)).

(** A call into the MySQL driver ([pool.getConnection], [connection.execute]):
    it throws when the oracle says so, before having any effect. An
    exhausted oracle means no more failures. *)
Definition storage_call : M unit := λ w,
  (match head (faults w) with
   | Some (Some message) => Throw message
   | _ => Ok tt
   end,
   set_faults tail w).

Definition getConnection : M unit := storage_call.

(** ** The entity [Pedido] (domain/entities/Pedido) *)

(** [new Pedido(props)]: [estado] defaults to [PENDIENTE], [items] to the
    empty array, the two dates to the clock; [total] and [referenciaPago]
    are stored as given. *)
Definition new_Pedido (props : PedidoProps) : M Pedido :=
  createdAt ← (match props_createdAt props with
               | Some d => mret d
               | None => new_Date
               end);
  updatedAt ← (match props_updatedAt props with
               | Some d => mret d
               | None => new_Date
               end);
  mret {| getId := props_id props;
          getUsuarioId := props_usuarioId props;
          getEstado := default PENDIENTE (props_estado props);
          getTotal := props_total props;
          getDireccionEnvio := props_direccionEnvio props;
          getMetodoPago := props_metodoPago props;
          getReferenciaPago := props_referenciaPago props;
          getItems := default [] (props_items props);
          getCreatedAt := createdAt;
          getUpdatedAt := updatedAt |}.

Definition with_usuarioId (v : Z) (p : Pedido) : Pedido :=
  mkPedido (getId p) v (getEstado p) (getTotal p) (getDireccionEnvio p)
           (getMetodoPago p) (getReferenciaPago p) (getItems p)
           (getCreatedAt p) (getUpdatedAt p).

Definition with_estado (v : EstadoPedido) (p : Pedido) : Pedido :=
  mkPedido (getId p) (getUsuarioId p) v (getTotal p) (getDireccionEnvio p)
           (getMetodoPago p) (getReferenciaPago p) (getItems p)
           (getCreatedAt p) (getUpdatedAt p).

Definition with_total (v : number) (p : Pedido) : Pedido :=
  mkPedido (getId p) (getUsuarioId p) (getEstado p) v (getDireccionEnvio p)
           (getMetodoPago p) (getReferenciaPago p) (getItems p)
           (getCreatedAt p) (getUpdatedAt p).

Definition with_direccionEnvio (v : string) (p : Pedido) : Pedido :=
  mkPedido (getId p) (getUsuarioId p) (getEstado p) (getTotal p) v
           (getMetodoPago p) (getReferenciaPago p) (getItems p)
           (getCreatedAt p) (getUpdatedAt p).

Definition with_metodoPago (v : string) (p : Pedido) : Pedido :=
  mkPedido (getId p) (getUsuarioId p) (getEstado p) (getTotal p)
           (getDireccionEnvio p) v (getReferenciaPago p) (getItems p)
           (getCreatedAt p) (getUpdatedAt p).

Definition with_referenciaPago (v : Nullable string) (p : Pedido) : Pedido :=
  mkPedido (getId p) (getUsuarioId p) (getEstado p) (getTotal p)
           (getDireccionEnvio p) (getMetodoPago p) v (getItems p)
           (getCreatedAt p) (getUpdatedAt p).

Definition with_items (v : list loc) (p : Pedido) : Pedido :=
  mkPedido (getId p) (getUsuarioId p) (getEstado p) (getTotal p)
           (getDireccionEnvio p) (getMetodoPago p) (getReferenciaPago p) v
           (getCreatedAt p) (getUpdatedAt p).

Definition with_updatedAt (v : Z) (p : Pedido) : Pedido :=
  mkPedido (getId p) (getUsuarioId p) (getEstado p) (getTotal p)
           (getDireccionEnvio p) (getMetodoPago p) (getReferenciaPago p)
           (getItems p) (getCreatedAt p) v.

(** [this.updatedAt = new Date()] *)
Definition touch (p : Pedido) : M Pedido :=
  d ← new_Date; mret (with_updatedAt d p).

(** The setters: each stores its argument and stamps [updatedAt]. *)
Definition setUsuarioId (usuarioId : Z) (p : Pedido) : M Pedido :=
  touch (with_usuarioId usuarioId p).

Definition setEstado (estado : EstadoPedido) (p : Pedido) : M Pedido :=
  touch (with_estado estado p).

Definition setTotal (total : number) (p : Pedido) : M Pedido :=
  touch (with_total total p).

Definition setDireccionEnvio (direccionEnvio : string) (p : Pedido) : M Pedido :=
  touch (with_direccionEnvio direccionEnvio p).

Definition setMetodoPago (metodoPago : string) (p : Pedido) : M Pedido :=
  touch (with_metodoPago metodoPago p).

Definition setReferenciaPago (referenciaPago : string) (p : Pedido) : M Pedido :=
  touch (with_referenciaPago (Present referenciaPago) p).

(** [this.items.reduce((sum, item) => sum + item.subtotal, 0)] *)
Definition reduce_subtotal (h : loc → PedidoItem) (items : list loc) : number :=
  foldl (λ sum item, (sum + subtotal (h item))%float) 0%float items.

Definition recalcularTotal (p : Pedido) : M Pedido :=
  w ← get_world;
  mret (with_total (reduce_subtotal (heap w) (getItems p)) p).

Definition addItem (item : loc) (p : Pedido) : M Pedido :=
  p ← recalcularTotal (with_items (getItems p ++ [item]) p);
  touch p.

Definition removeItem (productoId' : Z) (p : Pedido) : M Pedido :=
  w ← get_world;
  p ← recalcularTotal
        (with_items (filter (λ item, productoId (heap w item) ≠ productoId') (getItems p)) p);
  touch p.

(** [item.cantidad = cantidad; item.subtotal = item.precioUnitario * cantidad],
    on the item object itself. *)
Definition update_item_cantidad (cantidad' : number) (i : PedidoItem) : PedidoItem :=
  mkPedidoItem (productoId i) cantidad' (precioUnitario i)
               (precioUnitario i * cantidad')%float.

Definition heap_update (l : loc) (f : PedidoItem → PedidoItem)
    (h : loc → PedidoItem) : loc → PedidoItem :=
  λ l', if decide (l' = l) then f (h l') else h l'.

Definition updateItemCantidad (productoId' : Z) (cantidad' : number) (p : Pedido)
    : M Pedido :=
  w ← get_world;
  match List.find (λ item, bool_decide (productoId (heap w item) = productoId')) (getItems p) with
  | Some item =>
      modify_world (set_heap (heap_update item (update_item_cantidad cantidad')));;
      p ← recalcularTotal p;
      touch p
  | None => mret p
  end.

(** ** [CreatePedidoDTO.toEntity] (application/dtos/PedidoDTO) *)

Record CreatePedidoDTO : Type := mkCreatePedidoDTO {
  dto_usuarioId : Z;
  dto_direccionEnvio : string;
  dto_metodoPago : string;
  dto_referenciaPago : Nullable string;
  dto_items : list loc
}.

Definition toEntity (dto : CreatePedidoDTO) : M Pedido :=
  w ← get_world;
  let total := reduce_subtotal (heap w) (dto_items dto) in
  new_Pedido {| props_id := None;
                props_usuarioId := dto_usuarioId dto;
                props_estado := Some PENDIENTE;
                props_total := total;
                props_direccionEnvio := dto_direccionEnvio dto;
                props_metodoPago := dto_metodoPago dto;
                props_referenciaPago := dto_referenciaPago dto;
                props_items := Some (dto_items dto);
                props_createdAt := None;
                props_updatedAt := None |}.

(** ** [MySQLPedidoRepository] (infrastructure/repositories) *)

Definition item_of_row (r : ItemRow) : PedidoItem :=
  {| productoId := producto_id r;
     cantidad := row_cantidad r;
     precioUnitario := precio_unitario r;
     subtotal := row_subtotal r |}.

(** An object literal: a fresh item object. *)
Definition alloc (i : PedidoItem) : M loc := λ w,
  (Ok (next_loc w),
   set_next_loc S (set_heap (λ h l, if decide (l = next_loc w) then i else h l) w)).

Fixpoint alloc_all (l : list PedidoItem) : M (list loc) :=
  match l with
  | [] => mret []
  | i :: l' => r ← alloc i; rs ← alloc_all l'; mret (r :: rs)
  end.

(** [mapToEntity(row)]: reads the items of the order and builds the entity.
    The row is passed with its key. *)
Definition mapToEntity (row_id : Z) (row : PedidoRow) : M Pedido :=
  try_catch
    (getConnection;;
     storage_call;; (* SELECT * FROM pedido_items WHERE pedido_id = ? *)
     w ← get_world;
     let itemRows := filter (λ r, pedido_id r = row_id) (pedido_items w) in
     items ← alloc_all (item_of_row <$> itemRows);
     new_Pedido {| props_id := Some row_id;
                   props_usuarioId := usuario_id row;
                   props_estado := Some (row_estado row);
                   props_total := row_total row;
                   props_direccionEnvio := direccion_envio row;
                   props_metodoPago := metodo_pago row;
                   props_referenciaPago := of_column (referencia_pago row);
                   props_items := Some items;
                   props_createdAt := Some (created_at row);
                   props_updatedAt := Some (updated_at row) |})
    (λ message,
       logger_error ("Error al mapear pedido " +:+ pretty row_id +:+ ": " +:+ message);;
       throw message).

Definition findById (id : Z) : M (option Pedido) :=
  try_catch
    (getConnection;;
     storage_call;; (* SELECT * FROM pedidos WHERE id = ? *)
     w ← get_world;
     match pedidos w !! id with
     | None => mret None
     | Some row => p ← mapToEntity id row; mret (Some p)
     end)
    (λ message,
       logger_error ("Error al obtener pedido por ID " +:+ pretty id +:+ ": " +:+ message);;
       throw message).

Definition row_with_estado (estado : EstadoPedido) (now : Z) (r : PedidoRow) : PedidoRow :=
  mkPedidoRow (usuario_id r) estado (row_total r) (direccion_envio r)
              (metodo_pago r) (referencia_pago r) (created_at r) now.

Definition row_with_referencia_pago (referenciaPago : string) (now : Z)
    (r : PedidoRow) : PedidoRow :=
  mkPedidoRow (usuario_id r) (row_estado r) (row_total r) (direccion_envio r)
              (metodo_pago r) (Some referenciaPago) (created_at r) now.

(** [updateEstado(id, estado)]: one UPDATE statement, outside any
    transaction, then the order is read back. The read is returned without
    being awaited, so its failure is not handled by this [catch]. *)
Definition updateEstado (id : Z) (estado : EstadoPedido) : M (option Pedido) :=
  try_catch
    (getConnection;;
     now ← new_Date;
     storage_call;; (* UPDATE pedidos SET estado = ?, updated_at = ? WHERE id = ? *)
     modify_world (commit_pedidos (alter (row_with_estado estado now) id)))
    (λ message,
       logger_error ("Error al actualizar estado del pedido " +:+ pretty id +:+ ": " +:+ message);;
       throw message);;
  findById id.

(** [updateReferenciaPago(id, referenciaPago)]: likewise. *)
Definition updateReferenciaPago (id : Z) (referenciaPago : string) : M (option Pedido) :=
  try_catch
    (getConnection;;
     now ← new_Date;
     storage_call;; (* UPDATE pedidos SET referencia_pago = ?, updated_at = ? WHERE id = ? *)
     modify_world (commit_pedidos (alter (row_with_referencia_pago referenciaPago now) id)))
    (λ message,
       logger_error ("Error al actualizar referencia de pago del pedido "
                     +:+ pretty id +:+ ": " +:+ message);;
       throw message);;
  findById id.

(** ** [PedidoService] (application/services) *)

(** The result of [procesarPago]:
    [{ success: boolean; referenciaPago?: string; error?: string }]. *)
Record PagoResult : Type := mkPagoResult {
  success : bool;
  referenciaPago : option string;
  error : option string
}.

Definition pago_ok (referenciaPago' : string) : PagoResult :=
  {| success := true; referenciaPago := Some referenciaPago'; error := None |}.

Definition pago_error (message : string) : PagoResult :=
  {| success := false; referenciaPago := None; error := Some message |}.

(** [paymentInfo: any]. What the code does with it is read its property
    [referencia]: that throws a [TypeError] on [undefined] and on [null],
    and gives the property, or [undefined], on anything else: an object, or
    a primitive value (a string, a number, a boolean), which has no such
    property. The property is taken to be a string when it is there. *)
Inductive PaymentInfo : Type :=
  | InfoUndefined
  | InfoNull
  | InfoPrimitive
  | InfoObject (referencia : option string).

(** The message of the engine's [TypeError], which names the value that was
    read: [undefined] or [null]. *)
Definition TypeError_referencia (value : string) : string :=
  "Cannot read properties of " +:+ value +:+ " (reading 'referencia')".

Definition NOT_FOUND (pedidoId : Z) : string :=
  "Pedido con ID " +:+ pretty pedidoId +:+ " no encontrado".
Definition NOT_PENDING : string := "El pedido no está en estado pendiente".
Definition UNSUPPORTED : string := "Método de pago no soportado".

Definition updateEstadoPedido (id : Z) (estado : EstadoPedido) : M (option Pedido) :=
  try_catch
    (updateEstado id estado)
    (λ message,
       logger_error ("Error al actualizar estado del pedido " +:+ pretty id +:+ ": " +:+ message);;
       throw message).

(** The [switch] on the payment method: the reference to record, or [None]
    in the [default] branch. *)
Definition referencia_de_pago (metodoPago : string) (paymentInfo : PaymentInfo)
    : M (option string) :=
  if decide (metodoPago = STRIPE) then
    t ← new_Date; r ← random_1000;
    mret (Some ("stripe_" +:+ pretty t +:+ "_" +:+ pretty r))
  else if decide (metodoPago = PAYPAL) then
    t ← new_Date; r ← random_1000;
    mret (Some ("paypal_" +:+ pretty t +:+ "_" +:+ pretty r))
  else if decide (metodoPago = TRANSFERENCIA) then
    match paymentInfo with
    | InfoUndefined => throw (TypeError_referencia "undefined")
    | InfoNull => throw (TypeError_referencia "null")
    | InfoObject (Some referencia) =>
        if decide (referencia = "") then
          t ← new_Date; mret (Some ("transfer_" +:+ pretty t))
        else mret (Some referencia)
    | InfoObject None | InfoPrimitive =>
        t ← new_Date; mret (Some ("transfer_" +:+ pretty t))
    end
  else mret None.

(** The body of the [try] block of [procesarPago]. *)
Definition procesarPago_try (pedidoId : Z) (paymentInfo : PaymentInfo) : M PagoResult :=
  pedido ← findById pedidoId;
  match pedido with
  | None => mret (pago_error (NOT_FOUND pedidoId))
  | Some pedido =>
      if decide (getEstado pedido ≠ PENDIENTE) then mret (pago_error NOT_PENDING)
      else
        referencia ← referencia_de_pago (getMetodoPago pedido) paymentInfo;
        match referencia with
        | None => mret (pago_error UNSUPPORTED)
        | Some referenciaPago' =>
            updateReferenciaPago pedidoId referenciaPago';;
            updateEstado pedidoId PAGADO;;
            mret (pago_ok referenciaPago')
        end
  end.

Definition procesarPago (pedidoId : Z) (paymentInfo : PaymentInfo) : M PagoResult :=
  try_catch
    (procesarPago_try pedidoId paymentInfo)
    (λ message,
       logger_error ("Error al procesar pago del pedido "
                     +:+ pretty pedidoId +:+ ": " +:+ message);;
       mret (pago_error message)).

(** ** [StripeService.confirmPayment] (infrastructure/services) *)

Record ConfirmResult : Type := mkConfirmResult {
  confirm_success : bool;
  confirm_status : string;
  confirm_error : option string
}.

Definition paymentIntents_retrieve (paymentIntentId : string) : M string := λ w,
  (stripe_retrieve w paymentIntentId,
   set_gateway_calls (λ c, PaymentIntentsRetrieve paymentIntentId :: c) w).

Definition paymentIntents_confirm (paymentIntentId : string) : M string := λ w,
  (stripe_confirm w paymentIntentId,
   set_gateway_calls (λ c, PaymentIntentsConfirm paymentIntentId :: c) w).

Definition confirmPayment (paymentIntentId : string) : M ConfirmResult :=
  try_catch
    (status ← paymentIntents_retrieve paymentIntentId;
     if decide (status = "succeeded") then
       mret (mkConfirmResult true status None)
     else if decide (status = "requires_payment_method" ∨ status = "requires_confirmation") then
       status' ← paymentIntents_confirm paymentIntentId;
       mret (mkConfirmResult
               (bool_decide (status' = "succeeded"))
               status'
               (if decide (status' ≠ "succeeded")
                then Some "El pago requiere acción adicional" else None))
     else
       mret (mkConfirmResult false status
               (Some ("El pago no se pudo completar. Estado: " +:+ status))))
    (λ message,
       logger_error ("Error al confirmar pago en Stripe: " +:+ message);;
       mret (mkConfirmResult false "failed" (Some message))).

(** ** [MySQLPedidoRepository]: the writes made in a transaction

    Inside a transaction the statements of a connection change the tables
    as that connection sees them; [commit] makes them the stored tables,
    [rollback] drops them. [beginTransaction], [commit] and [rollback] are
    calls into the driver like the others. The driver (mysql2) refuses a
    statement that has [undefined] among its parameters: [execute] throws a
    [TypeError] before anything is sent. *)

Definition Tables : Type := gmap Z PedidoRow * list ItemRow.

Definition beginTransaction : M Tables :=
  storage_call;;
  w ← get_world;
  mret (pedidos w, pedido_items w).

(** The stored tables become [t], and the new table [pedidos] is
    observable. *)
Definition publish (t : Tables) (w : World) : World :=
  mkWorld (heap w) (next_loc w) t.1 t.2 (t.1 :: persisted w)
          (faults w) (clock w) (random w) (stripe_retrieve w) (stripe_confirm w)
          (gateway_calls w) (log w).

Definition commit (t : Tables) : M unit :=
  storage_call;;
  modify_world (publish t).

Definition rollback : M unit := storage_call.

(** The row that [create] inserts for an order, and the row of one of its
    items. *)
Definition row_of_pedido (pedido : Pedido) (createdAt updatedAt : Z) : PedidoRow :=
  {| usuario_id := getUsuarioId pedido;
     row_estado := getEstado pedido;
     row_total := getTotal pedido;
     direccion_envio := getDireccionEnvio pedido;
     metodo_pago := getMetodoPago pedido;
     referencia_pago := column_of (getReferenciaPago pedido);
     created_at := createdAt;
     updated_at := updatedAt |}.

Definition row_of_item (pedidoId : Z) (i : PedidoItem) : ItemRow :=
  {| pedido_id := pedidoId;
     producto_id := productoId i;
     row_cantidad := cantidad i;
     precio_unitario := precioUnitario i;
     row_subtotal := subtotal i |}.

(** [for (const item of pedido.getItems) await connection.execute(INSERT ...)] *)
Fixpoint insert_items (pedidoId : Z) (items : list loc) (t : Tables) : M Tables :=
  match items with
  | [] => mret t
  | item :: items' =>
      w ← get_world;
      storage_call;; (* INSERT INTO pedido_items ... *)
      insert_items pedidoId items' (t.1, t.2 ++ [row_of_item pedidoId (heap w item)])
  end.

Definition BIND_UNDEFINED : string :=
  "Bind parameters must not contain undefined. To pass SQL NULL specify JS null".

(** The check that [execute] makes of a parameter that can be missing. *)
Definition bind_parameter {A : Type} (v : Nullable A) : M unit :=
  match v with
  | Undefined => throw BIND_UNDEFINED
  | _ => mret tt
  end.

(** [create(pedido)]. [insertId] is the key that the table gives the new
    row. Of the parameters of the INSERT of the order, [referenciaPago] is
    the one that can be [undefined]. The [catch] rolls back when there is a
    connection, logs and throws again; the order is read back by a call
    that is returned without being awaited, so outside the [try]. *)
Definition create (insertId : Z) (pedido : Pedido) : M (option Pedido) :=
  try_catch getConnection
    (λ message, logger_error ("Error al crear pedido: " +:+ message);; throw message);;
  try_catch
    (t ← beginTransaction;
     createdAt ← new_Date;
     updatedAt ← new_Date;
     bind_parameter (getReferenciaPago pedido);;
     storage_call;; (* INSERT INTO pedidos ... *)
     t ← insert_items insertId (getItems pedido)
           (<[insertId := row_of_pedido pedido createdAt updatedAt]> t.1, t.2);
     commit t)
    (λ message,
       rollback;;
       logger_error ("Error al crear pedido: " +:+ message);;
       throw message);;
  findById insertId.

(** [delete(id)]: the items of the order, then the order, in one
    transaction. *)
Definition delete_pedido (id : Z) : M unit :=
  try_catch getConnection
    (λ message,
       logger_error ("Error al eliminar pedido " +:+ pretty id +:+ ": " +:+ message);;
       throw message);;
  try_catch
    (t ← beginTransaction;
     storage_call;; (* DELETE FROM pedido_items WHERE pedido_id = ? *)
     let t := (t.1, filter (λ r, pedido_id r ≠ id) t.2) in
     storage_call;; (* DELETE FROM pedidos WHERE id = ? *)
     let t := (delete id t.1, t.2) in
     commit t)
    (λ message,
       rollback;;
       logger_error ("Error al eliminar pedido " +:+ pretty id +:+ ": " +:+ message);;
       throw message).

(** ** [PedidoService]: the other operations on one order *)

Definition getPedidoById (id : Z) : M (option Pedido) :=
  try_catch (findById id)
    (λ message,
       logger_error ("Error al obtener pedido por ID " +:+ pretty id +:+ ": " +:+ message);;
       throw message).

Definition createPedido (insertId : Z) (pedido : Pedido) : M (option Pedido) :=
  try_catch (create insertId pedido)
    (λ message, logger_error ("Error al crear pedido: " +:+ message);; throw message).

Definition deletePedido (id : Z) : M unit :=
  try_catch (delete_pedido id)
    (λ message,
       logger_error ("Error al eliminar pedido " +:+ pretty id +:+ ": " +:+ message);;
       throw message).

(** * The other entities and the cache

    The product and culture entities and the in-memory stand-in for Redis.
    What they count is taken to be whole: the units of a stock and of a
    quantity taken from it, the seconds of a time to live; fractions and
    [NaN] are left out. [new Date()] and [Date.now()] read the clock. A
    method that throws leaves the object as the caller holds it. *)

(** ** [Producto] (domain/entities/Producto) *)

Module Producto.

Record Producto : Type := mkProducto {
  getId : option Z;
  getNombre : string;
  getDescripcion : string;
  getPrecio : number;
  getCategoria : string;
  getArtesano : string;
  getStock : Z;
  getCreatedAt : Z;
  getUpdatedAt : Z
}.

Definition with_stock (v : Z) (p : Producto) : Producto :=
  mkProducto (getId p) (getNombre p) (getDescripcion p) (getPrecio p) (getCategoria p)
             (getArtesano p) v (getCreatedAt p) (getUpdatedAt p).

Definition with_updatedAt (v : Z) (p : Producto) : Producto :=
  mkProducto (getId p) (getNombre p) (getDescripcion p) (getPrecio p) (getCategoria p)
             (getArtesano p) (getStock p) (getCreatedAt p) v.

(** [this.updatedAt = new Date()] *)
Definition touch (p : Producto) : M Producto :=
  d ← new_Date; mret (with_updatedAt d p).

Definition setStock (stock : Z) (p : Producto) : M Producto :=
  touch (with_stock stock p).

Definition CANTIDAD_NO_POSITIVA : string := "La cantidad debe ser mayor que cero".
Definition STOCK_INSUFICIENTE : string := "Stock insuficiente".

Definition decrementarStock (cantidad : Z) (p : Producto) : M Producto :=
  if decide (cantidad ≤ 0) then throw CANTIDAD_NO_POSITIVA
  else if decide (getStock p < cantidad) then throw STOCK_INSUFICIENTE
  else touch (with_stock (getStock p - cantidad) p).

Definition incrementarStock (cantidad : Z) (p : Producto) : M Producto :=
  if decide (cantidad ≤ 0) then throw CANTIDAD_NO_POSITIVA
  else touch (with_stock (getStock p + cantidad) p).

End Producto.

(** ** [Cultura] (domain/entities/Cultura) *)

Module Cultura.

Record Cultura : Type := mkCultura {
  getId : option Z;
  getNombre : string;
  getDescripcion : string;
  getRegion : string;
  getPais : string;
  getTradiciones : list string;
  getCreatedAt : Z;
  getUpdatedAt : Z
}.

Definition with_tradiciones (v : list string) (c : Cultura) : Cultura :=
  mkCultura (getId c) (getNombre c) (getDescripcion c) (getRegion c) (getPais c)
            v (getCreatedAt c) (getUpdatedAt c).

Definition with_updatedAt (v : Z) (c : Cultura) : Cultura :=
  mkCultura (getId c) (getNombre c) (getDescripcion c) (getRegion c) (getPais c)
            (getTradiciones c) (getCreatedAt c) v.

Definition touch (c : Cultura) : M Cultura :=
  d ← new_Date; mret (with_updatedAt d c).

Definition setTradiciones (tradiciones : list string) (c : Cultura) : M Cultura :=
  touch (with_tradiciones tradiciones c).

Definition addTradicion (tradicion : string) (c : Cultura) : M Cultura :=
  if decide (tradicion ∈ getTradiciones c) then mret c
  else touch (with_tradiciones (getTradiciones c ++ [tradicion]) c).

Definition removeTradicion (tradicion : string) (c : Cultura) : M Cultura :=
  touch (with_tradiciones (filter (λ t, t ≠ tradicion) (getTradiciones c)) c).

End Cultura.

(** ** [RedisMock], the in-memory stand-in for Redis

    The cache is the [Map] of the object; each operation takes it and gives
    it back, and the two that look at the time take the reading of
    [Date.now()] they make. *)

Module RedisMock.

Record Item : Type := mkItem {
  value : string;
  expiry : option Z
}.

Abbreviation Cache := (gmap string Item).

(** [if (expiryMode === 'EX' && time) expiry = Date.now() + time * 1000],
    with [time] absent or zero being falsy. *)
Definition set (key value : string) (expiryMode : option string) (time : option Z)
    (now : Z) (cache : Cache) : Cache :=
  let expiry :=
    if decide (expiryMode = Some "EX") then
      match time with
      | Some time => if decide (time ≠ 0) then Some (now + time * 1000) else None
      | None => None
      end
    else None in
  <[key := mkItem value expiry]> cache.

(** [if (item.expiry && item.expiry < Date.now())], with an expiry that is
    absent or zero being falsy. *)
Definition expired (item : Item) (now : Z) : Prop :=
  match expiry item with
  | Some e => e ≠ 0 ∧ e < now
  | None => False
  end.

#[global] Instance expired_dec (item : Item) (now : Z) : Decision (expired item now).
Proof. unfold expired. destruct (expiry item); apply _. Defined.

Definition get (key : string) (now : Z) (cache : Cache) : option string * Cache :=
  match cache !! key with
  | None => (None, cache)
  | Some item =>
      if decide (expired item now) then (None, delete key cache)
      else (Some (value item), cache)
  end.

Definition del (key : string) (cache : Cache) : Z * Cache :=
  (if cache !! key is Some _ then 1 else 0, delete key cache).

Definition flushall (cache : Cache) : Cache := ∅.

End RedisMock.

(** * Vocabulary of the statements *)

(** Storage raises no exception from this state on. *)
Definition no_storage_faults (w : World) : Prop :=
  Forall (λ f, f = None) (faults w).

(** A run that took the fault oracle from [fs] to [fs'] with outcome [o]
    made the storage calls that consumed the difference: none of them failed
    when the outcome is a value, and the last one failed with the thrown
    message when the outcome is an exception. *)
Definition fault_run {A : Type} (fs : list (option string)) (o : Outcome A)
    (fs' : list (option string)) : Prop :=
  ∃ c, fs = c ++ fs' ∧
       match o with
       | Ok _ => Forall (λ f, f = None) c
       | Throw e => ∃ pre, c = pre ++ [Some e] ∧ Forall (λ f, f = None) pre
       end.

Abbreviation storage_run w o w1 := (fault_run (faults w) o (faults w1)).

(** The storage raised [message] between [w] and [w']. *)
Definition storage_raised (w w' : World) (message : string) : Prop :=
  ∃ pre, faults w = pre ++ Some message :: faults w'.

(** What a run that only reads leaves as it was. *)
Record only_reads (w w' : World) : Prop := mk_only_reads {
  reads_pedidos : pedidos w' = pedidos w;
  reads_pedido_items : pedido_items w' = pedido_items w;
  reads_persisted : persisted w' = persisted w;
  reads_clock : clock w' = clock w;
  reads_random : random w' = random w;
  reads_gateway_calls : gateway_calls w' = gateway_calls w
}.

(** The entity [p] is the row [row] of key [id]. *)
Record entity_of_row (id : Z) (row : PedidoRow) (p : Pedido) : Prop := mk_entity_of_row {
  entity_id : getId p = Some id;
  entity_usuarioId : getUsuarioId p = usuario_id row;
  entity_estado : getEstado p = row_estado row;
  entity_total : getTotal p = row_total row;
  entity_direccionEnvio : getDireccionEnvio p = direccion_envio row;
  entity_metodoPago : getMetodoPago p = metodo_pago row;
  entity_referenciaPago : getReferenciaPago p = of_column (referencia_pago row);
  entity_createdAt : getCreatedAt p = created_at row;
  entity_updatedAt : getUpdatedAt p = updated_at row
}.

(** What [findById] answers on a table. *)
Definition found (id : Z) (t : gmap Z PedidoRow) (r : option Pedido) : Prop :=
  match t !! id with
  | None => r = None
  | Some row => ∃ p, r = Some p ∧ entity_of_row id row p
  end.

(** The sum of the subtotals of the items of an order, as the specification
    words it: the subtotals added up from zero in the order of the lines.
    (Sums of doubles depend on the order of the additions.) *)
Definition sum_subtotals (h : loc → PedidoItem) (items : list loc) : number :=
  foldl (λ acc item, (acc + subtotal (h item))%float) 0%float items.

(** The order's total is the sum of the subtotals of its items. *)
Definition total_ok (w : World) (p : Pedido) : Prop :=
  getTotal p = sum_subtotals (heap w) (getItems p).

(** A call of one of the three item operations of the entity. *)
Inductive ItemOp : Type :=
  | AddItem (item : loc)
  | RemoveItem (productoId' : Z)
  | UpdateItemCantidad (productoId' : Z) (cantidad' : number).

Definition apply_op (op : ItemOp) (p : Pedido) : M Pedido :=
  match op with
  | AddItem item => addItem item p
  | RemoveItem productoId' => removeItem productoId' p
  | UpdateItemCantidad productoId' cantidad' => updateItemCantidad productoId' cantidad' p
  end.

(** The state (heap and order) after a call; the operations do not throw. *)
Definition step (op : ItemOp) (s : World * Pedido) : World * Pedido :=
  match apply_op op s.2 s.1 with
  | (Ok p', w') => (w', p')
  | (Throw _, w') => (w', s.2)
  end.

(** The states after each call of a sequence of calls. *)
Fixpoint states_after (ops : list ItemOp) (s : World * Pedido) : list (World * Pedido) :=
  match ops with
  | [] => []
  | op :: ops' => step op s :: states_after ops' (step op s)
  end.

(** The product occurs among the items of the order. *)
Definition has_producto (w : World) (p : Pedido) (productoId' : Z) : Prop :=
  ∃ item, item ∈ getItems p ∧ productoId (heap w item) = productoId'.

(** The call recomputes the total: every call but an [updateItemCantidad]
    for a product that the order does not have. *)
Definition recomputes (op : ItemOp) (s : World * Pedido) : Prop :=
  match op with
  | UpdateItemCantidad productoId' _ => has_producto s.1 s.2 productoId'
  | _ => True
  end.

(** The stored state and payment reference of an order. *)
Definition stored_estado (id : Z) (w : World) : option EstadoPedido :=
  row_estado <$> pedidos w !! id.

Definition stored_referencia (id : Z) (w : World) : option (option string) :=
  referencia_pago <$> pedidos w !! id.

(** ** Concrete states, for the scenarios *)

Definition item_nulo : PedidoItem := mkPedidoItem 0 0 0 0.

(** A state with the given tables and oracles, an empty heap and no
    history. *)
Definition example_world (t : gmap Z PedidoRow) (items : list ItemRow)
    (fs : list (option string)) (ticks rnd : list Z)
    (retrieve : string → Outcome string) : World :=
  {| heap := λ _, item_nulo; next_loc := 0%nat;
     pedidos := t; pedido_items := items; persisted := [];
     faults := fs; clock := ticks; random := rnd;
     stripe_retrieve := retrieve;
     stripe_confirm := λ _, Throw "No such payment_intent";
     gateway_calls := []; log := [] |}.

(** The order of the scenarios of the specification: two items, total
    125000. *)
Definition example_row (estado : EstadoPedido) (metodoPago : string)
    (referenciaPago' : option string) : PedidoRow :=
  {| usuario_id := 7; row_estado := estado; row_total := 125000;
     direccion_envio := "Calle 1"; metodo_pago := metodoPago;
     referencia_pago := referenciaPago'; created_at := 10; updated_at := 10 |}.

Definition example_items : list ItemRow :=
  [mkItemRow 1 1 2 50000 100000; mkItemRow 1 3 1 25000 25000].

Definition declined (_ : string) : Outcome string := Ok "canceled".

(** Order 1 with the given state and method, a clock, and a storage that
    fails as [fs] says. *)
Definition example_db (estado : EstadoPedido) (metodoPago : string)
    (referenciaPago' : option string) (fs : list (option string)) : World :=
  example_world (<[1 := example_row estado metodoPago referenciaPago']> ∅)
                example_items fs [100; 101; 102; 103] [5] declined.

(** A call of a mutator of the entity: a setter or an item operation. *)
Inductive Mutator : Type :=
  | SetUsuarioId (usuarioId : Z)
  | SetEstado (estado : EstadoPedido)
  | SetTotal (total : number)
  | SetDireccionEnvio (direccionEnvio : string)
  | SetMetodoPago (metodoPago : string)
  | SetReferenciaPago (referenciaPago' : string)
  | Items (op : ItemOp).

Definition mutate (m : Mutator) (p : Pedido) : M Pedido :=
  match m with
  | SetUsuarioId usuarioId => setUsuarioId usuarioId p
  | SetEstado estado => setEstado estado p
  | SetTotal total => setTotal total p
  | SetDireccionEnvio direccionEnvio => setDireccionEnvio direccionEnvio p
  | SetMetodoPago metodoPago => setMetodoPago metodoPago p
  | SetReferenciaPago referenciaPago' => setReferenciaPago referenciaPago' p
  | Items op => apply_op op p
  end.

Definition is_SetTotal (m : Mutator) : bool :=
  match m with SetTotal _ => true | _ => false end.

Definition is_SetReferenciaPago (m : Mutator) : bool :=
  match m with SetReferenciaPago _ => true | _ => false end.

(** The two items of the scenarios, as objects at references 0 and 1. *)
Definition example_heap (l : loc) : PedidoItem :=
  match l with
  | 0%nat => mkPedidoItem 1 2 50000 100000
  | 1%nat => mkPedidoItem 3 1 25000 25000
  | _ => item_nulo
  end.

Definition example_entity_world : World :=
  set_next_loc (λ _, 2%nat)
    (set_heap (λ _, example_heap) (example_world ∅ [] [] [100; 101; 102; 103] [] declined)).

(** The same state two clock readings later. *)
Definition example_entity_world_later : World :=
  set_clock (λ _, [102; 103]) example_entity_world.

Definition example_dto (referenciaPago' : Nullable string) : CreatePedidoDTO :=
  {| dto_usuarioId := 7; dto_direccionEnvio := "Calle 1";
     dto_metodoPago := TRANSFERENCIA; dto_referenciaPago := referenciaPago';
     dto_items := [0%nat; 1%nat] |}.

(** The order that [toEntity] builds from [example_dto Undefined] at clock
    100. *)
Definition example_pedido : Pedido :=
  {| getId := None; getUsuarioId := 7; getEstado := PENDIENTE; getTotal := 125000;
     getDireccionEnvio := "Calle 1"; getMetodoPago := TRANSFERENCIA;
     getReferenciaPago := Undefined; getItems := [0%nat; 1%nat];
     getCreatedAt := 100; getUpdatedAt := 101 |}.

(** An order built with a total that is not the sum of its items. *)
Definition example_props_total_999 : PedidoProps :=
  {| props_id := None; props_usuarioId := 7; props_estado := None;
     props_total := 999; props_direccionEnvio := "Calle 1";
     props_metodoPago := TRANSFERENCIA; props_referenciaPago := Undefined;
     props_items := Some [0%nat; 1%nat];
     props_createdAt := Some 10; props_updatedAt := Some 10 |}.

(** ** Vocabulary of the further properties *)

(** What [create] writes when it commits. *)
Definition created (insertId : Z) (pedido : Pedido) (w w' : World) : Prop :=
  pedidos w' =
    <[insertId := row_of_pedido pedido (default 0 (head (clock w)))
                                (default 0 (head (tail (clock w))))]> (pedidos w) ∧
  pedido_items w' =
    pedido_items w ++ (row_of_item insertId ∘ heap w <$> getItems pedido) ∧
  persisted w' = pedidos w' :: persisted w.

(** The stored tables and their history are as they were. *)
Definition nothing_stored (w w' : World) : Prop :=
  pedidos w' = pedidos w ∧ pedido_items w' = pedido_items w ∧
  persisted w' = persisted w.

(** What [delete] writes when it commits. *)
Definition deleted (id : Z) (w w' : World) : Prop :=
  pedidos w' = delete id (pedidos w) ∧
  pedido_items w' = filter (λ r, pedido_id r ≠ id) (pedido_items w) ∧
  persisted w' = pedidos w' :: persisted w.

(** The entity [p], read in the state [w] and held in [w'], is the row
    [row] of key [id] with the items of that order, in new item objects. *)
Definition loaded (id : Z) (row : PedidoRow) (w w' : World) (p : Pedido) : Prop :=
  entity_of_row id row p ∧
  heap w' <$> getItems p
  = (item_of_row <$> filter (λ r, pedido_id r = id) (pedido_items w)) ∧
  Forall (λ l, (next_loc w ≤ l < next_loc w')%nat) (getItems p).

(** The item objects that existed in [w] are as they were in [w']. *)
Definition objects_kept (w w' : World) : Prop :=
  (next_loc w ≤ next_loc w')%nat ∧
  ∀ l, (l < next_loc w)%nat → heap w' l = heap w l.

(** Between [w] and [w'] no order other than [id] and no item row has
    changed. *)
Definition only_order (id : Z) (w w' : World) : Prop :=
  pedido_items w' = pedido_items w ∧
  ∀ j, j ≠ id → pedidos w' !! j = pedidos w !! j.

(** A call of one of the two stock operations of a product. *)
Inductive StockOp : Type :=
  | Decrementar (cantidad : Z)
  | Incrementar (cantidad : Z).

Definition apply_stock_op (op : StockOp) : Producto.Producto → M Producto.Producto :=
  match op with
  | Decrementar cantidad => Producto.decrementarStock cantidad
  | Incrementar cantidad => Producto.incrementarStock cantidad
  end.

(** The state and the product after a call; a call that throws leaves the
    product as it was. *)
Definition stock_step (s : World * Producto.Producto) (op : StockOp)
    : World * Producto.Producto :=
  match apply_stock_op op s.2 s.1 with
  | (Ok p, w) => (w, p)
  | (Throw _, w) => (w, s.2)
  end.

(** What [set] followed by a [get] at [later] finds expired. *)
Definition expires (expiryMode : option string) (time : option Z) (now later : Z) : Prop :=
  expiryMode = Some "EX" ∧
  ∃ t, time = Some t ∧ t ≠ 0 ∧ now + t * 1000 ≠ 0 ∧ now + t * 1000 < later.

(** A product with two units in stock, and a cache that holds one value
    for sixty seconds from time 1000. *)
Definition example_producto : Producto.Producto :=
  Producto.mkProducto (Some 1) "Manta" "Manta de lana" 50000 "mantas" "Rosa" 2 100 100.

Definition example_cache : RedisMock.Cache :=
  RedisMock.set "producto:1" "manta" (Some "EX") (Some 60) 1000 ∅.

(** * Properties *)

(** ** Storage runs *)

Lemma fault_run_refl {A : Type} (fs : list (option string)) (a : A) :
  fault_run fs (Ok a) fs.
Proof. exists []. split; [done | constructor]. Qed.

Lemma fault_run_trans {A B : Type} (fs fs1 fs2 : list (option string))
    (a : A) (o : Outcome B) :
  fault_run fs (Ok a) fs1 → fault_run fs1 o fs2 → fault_run fs o fs2.
Proof.
  intros (c1 & E1 & H1) (c2 & E2 & H2). exists (c1 ++ c2). split.
  - by rewrite E1, E2, app_assoc.
  - destruct o as [b | e].
    + by apply Forall_app.
    + destruct H2 as (pre & -> & Hpre). exists (c1 ++ pre). split.
      * by rewrite app_assoc.
      * by apply Forall_app.
Qed.

Lemma fault_run_retag {A B : Type} (fs fs' : list (option string)) (a : A) (b : B) :
  fault_run fs (Ok a) fs' → fault_run fs (Ok b) fs'.
Proof. intros (c & E & H). by exists c. Qed.

Lemma storage_run_quiet {A : Type} (w w' : World) (o : Outcome A) :
  storage_run w o w' → no_storage_faults w →
  (∃ a, o = Ok a) ∧ no_storage_faults w'.
Proof.
  unfold no_storage_faults. intros (c & E & H) Hq. rewrite E in Hq.
  apply Forall_app in Hq as [Hc Hw']. split; [| done].
  destruct o as [a | e]; [by exists a |].
  destruct H as (pre & -> & _). apply Forall_app in Hc as [_ Hc].
  by inversion Hc.
Qed.

Lemma storage_run_raised {A : Type} (w w' : World) (o : Outcome A) (message : string) :
  storage_run w o w' → storage_raised w w' message → o = Throw message.
Proof.
  intros (c & E & H) (pre & E'). rewrite E' in E.
  replace (pre ++ Some message :: faults w') with ((pre ++ [Some message]) ++ faults w') in E
    by (by rewrite <- app_assoc).
  apply app_inv_tail in E. subst c. destruct o as [a | e].
  - apply Forall_app in H as [_ H]. by inversion H.
  - destruct H as (pre' & E & _). apply app_inj_tail in E as [_ E]. congruence.
Qed.

(** One storage call, by cases on the oracle. *)
Lemma storage_call_cases (w : World) :
  (storage_call w = (Ok tt, set_faults tail w) ∧
   fault_run (faults w) (Ok tt) (tail (faults w))) ∨
  (∃ e, storage_call w = (Throw e, set_faults tail w) ∧
        ∀ A, fault_run (faults w) (@Throw A e) (tail (faults w))).
Proof.
  unfold storage_call.
  destruct (faults w) as [| [e |] fs]; simpl.
  - left. split; [done |]. apply fault_run_refl.
  - right. exists e. split; [done |]. intros A. exists [Some e]. split; [done |].
    exists []. split; [done | constructor].
  - left. split; [done |]. exists [None]. split; [done |]. by repeat constructor.
Qed.

Lemma alloc_all_run (l : list PedidoItem) (w : World) :
  ∃ ls h n, alloc_all l w = (Ok ls, set_next_loc (λ _, n) (set_heap (λ _, h) w)).
Proof.
  revert w. induction l as [| i l IH]; intros w.
  - exists [], (heap w), (next_loc w). by destruct w.
  - simpl. unfold mbind, M_bind, alloc at 1.
    destruct (IH (set_next_loc S
                    (set_heap (λ h l0, if decide (l0 = next_loc w) then i else h l0) w)))
      as (ls & h & n & E).
    rewrite E. by exists (next_loc w :: ls), h, n.
Qed.

(** Symbolic execution of the monadic code. *)
Ltac msimpl :=
  cbv beta iota zeta delta
    [get_world modify_world mret M_ret mbind M_bind throw logger_error
     try_catch getConnection new_Date random_1000].

Ltac wsimpl :=
  cbn [heap next_loc pedidos pedido_items persisted faults clock random
       stripe_retrieve stripe_confirm gateway_calls log
       set_heap set_next_loc commit_pedidos set_faults set_clock set_random
       set_gateway_calls set_log fst snd] in *.

Ltac run_storage_call w :=
  let E := fresh "E" in let R := fresh "R" in let e := fresh "e" in
  destruct (storage_call_cases w) as [[E R] | (e & E & R)];
  rewrite E; msimpl.

Lemma mapToEntity_run (id : Z) (row : PedidoRow) (w : World) :
  ∃ o w', mapToEntity id row w = (o, w') ∧
          storage_run w o w' ∧ only_reads w w' ∧
          ∀ p, o = Ok p → entity_of_row id row p.
Proof.
  unfold mapToEntity. msimpl.
  run_storage_call w.
  2: { do 2 eexists. split; [done |]. split; [apply R |]. by split. }
  run_storage_call (set_faults tail w).
  2: { do 2 eexists. split; [done |]. simpl. split.
       - eapply fault_run_trans; [apply R | apply R0].
       - by split. }
  match goal with |- context [alloc_all ?l ?w0] =>
    destruct (alloc_all_run l w0) as (ls & h & n & ->) end.
  unfold new_Pedido. msimpl.
  do 2 eexists. split; [done |]. simpl. split; [| split].
  - eapply fault_run_trans; [apply R |]. eapply (fault_run_retag _ _ _ _ R0).
  - by split.
  - intros p [= <-]. by split.
Qed.

Lemma findById_run (id : Z) (w : World) :
  ∃ o w', findById id w = (o, w') ∧
          storage_run w o w' ∧ only_reads w w' ∧
          ∀ r, o = Ok r → found id (pedidos w) r.
Proof.
  unfold findById, found. msimpl.
  run_storage_call w.
  2: { do 2 eexists. split; [done |]. split; [apply R |]. by split. }
  run_storage_call (set_faults tail w).
  2: { do 2 eexists. split; [done |]. simpl. split.
       - eapply fault_run_trans; [apply R | apply R0].
       - by split. }
  wsimpl.
  destruct (pedidos w !! id) as [row |] eqn:Hrow.
  2: { do 2 eexists. split; [done |]. simpl. split; [| split].
       - eapply fault_run_trans; [apply R | apply R0].
       - by split.
       - by intros r [= <-]. }
  destruct (mapToEntity_run id row (set_faults tail (set_faults tail w)))
    as (o & w' & -> & Hrun & Hreads & Hent).
  assert (fault_run (faults w) o (faults w')) as Hrun'.
  { eapply fault_run_trans; [apply R |]. eapply fault_run_trans; [apply R0 | apply Hrun]. }
  assert (only_reads w w') as Hreads'.
  { destruct Hreads. by split. }
  destruct o as [p | e]; msimpl.
  - do 2 eexists. split; [done |]. split; [eapply (fault_run_retag _ _ _ _ Hrun') |].
    split; [done |]. intros r [= <-]. eauto.
  - do 2 eexists. split; [done |]. split; [done |]. split; [| done].
    destruct Hreads'. by split.
Qed.

(** The two writes of the repository that [procesarPago] uses. *)
Lemma updateReferenciaPago_run (id : Z) (referenciaPago' : string) (w : World) :
  ∃ o w', updateReferenciaPago id referenciaPago' w = (o, w') ∧
          storage_run w o w' ∧
          pedido_items w' = pedido_items w ∧ random w' = random w ∧
          gateway_calls w' = gateway_calls w ∧
          ∀ r, o = Ok r →
               pedidos w' =
                 alter (row_with_referencia_pago referenciaPago' (default 0 (head (clock w))))
                       id (pedidos w) ∧
               persisted w' = pedidos w' :: persisted w ∧
               clock w' = tail (clock w) ∧
               found id (pedidos w') r.
Proof.
  unfold updateReferenciaPago. msimpl.
  run_storage_call w.
  2: { do 2 eexists. split; [done |]. split; [apply R |]. by repeat split. }
  run_storage_call (set_clock tail (set_faults tail w)).
  2: { do 2 eexists. split; [done |]. wsimpl. split.
       - eapply fault_run_trans; [apply R | apply R0].
       - by repeat split. }
  match goal with |- context [findById id ?w0] =>
    destruct (findById_run id w0) as (o & w' & -> & Hrun & [] & Hfound) end.
  wsimpl. exists o, w'. split; [by destruct o |].
  split.
  { eapply fault_run_trans; [apply R |]. eapply fault_run_trans; [apply R0 | apply Hrun]. }
  do 3 (split; [done |]).
  intros r ->. specialize (Hfound r eq_refl).
  by rewrite reads_pedidos0, reads_persisted0, reads_clock0.
Qed.

Lemma updateEstado_run (id : Z) (estado : EstadoPedido) (w : World) :
  ∃ o w', updateEstado id estado w = (o, w') ∧
          storage_run w o w' ∧
          pedido_items w' = pedido_items w ∧ random w' = random w ∧
          gateway_calls w' = gateway_calls w ∧
          ∀ r, o = Ok r →
               pedidos w' =
                 alter (row_with_estado estado (default 0 (head (clock w)))) id (pedidos w) ∧
               persisted w' = pedidos w' :: persisted w ∧
               clock w' = tail (clock w) ∧
               found id (pedidos w') r.
Proof.
  unfold updateEstado. msimpl.
  run_storage_call w.
  2: { do 2 eexists. split; [done |]. split; [apply R |]. by repeat split. }
  run_storage_call (set_clock tail (set_faults tail w)).
  2: { do 2 eexists. split; [done |]. wsimpl. split.
       - eapply fault_run_trans; [apply R | apply R0].
       - by repeat split. }
  match goal with |- context [findById id ?w0] =>
    destruct (findById_run id w0) as (o & w' & -> & Hrun & [] & Hfound) end.
  wsimpl. exists o, w'. split; [by destruct o |].
  split.
  { eapply fault_run_trans; [apply R |]. eapply fault_run_trans; [apply R0 | apply Hrun]. }
  do 3 (split; [done |]).
  intros r ->. specialize (Hfound r eq_refl).
  by rewrite reads_pedidos0, reads_persisted0, reads_clock0.
Qed.

(** The choice of the reference reads the clock and [Math.random] and
    nothing else, and writes nothing. *)
Lemma referencia_de_pago_frame (metodoPago : string) (paymentInfo : PaymentInfo) (w : World) :
  let w' := (referencia_de_pago metodoPago paymentInfo w).2 in
  faults w' = faults w ∧ pedidos w' = pedidos w ∧ pedido_items w' = pedido_items w ∧
  persisted w' = persisted w ∧ gateway_calls w' = gateway_calls w.
Proof.
  unfold referencia_de_pago.
  repeat case_decide; try done.
  destruct paymentInfo as [| | | [s |]]; try done. by case_decide.
Qed.

Lemma referencia_de_pago_oracle (metodoPago : string) (paymentInfo : PaymentInfo)
    (w1 w : World) :
  clock w1 = clock w → random w1 = random w →
  (referencia_de_pago metodoPago paymentInfo w1).1
  = (referencia_de_pago metodoPago paymentInfo w).1.
Proof.
  intros Hc Hr. unfold referencia_de_pago.
  repeat case_decide; msimpl; wsimpl; rewrite ?Hc, ?Hr; try done.
  destruct paymentInfo as [| | | [s |]]; try done; try case_decide; msimpl; wsimpl;
    by rewrite ?Hc.
Qed.

(** [procesarPago] on an order that is missing or not pending: the read and
    nothing else. *)
Lemma procesarPago_try_rejects (id : Z) (paymentInfo : PaymentInfo) (w : World) :
  (∀ row, pedidos w !! id = Some row → row_estado row ≠ PENDIENTE) →
  ∃ o w', procesarPago_try id paymentInfo w = (o, w') ∧
          storage_run w o w' ∧ only_reads w w' ∧
          ∀ r, o = Ok r →
               r = pago_error (match pedidos w !! id with
                               | None => NOT_FOUND id
                               | Some _ => NOT_PENDING
                               end).
Proof.
  intros Hrow. unfold procesarPago_try. msimpl.
  destruct (findById_run id w) as (o & w' & -> & Hrun & Hreads & Hfound).
  destruct o as [r | e].
  2: { do 2 eexists. split; [done |]. do 2 (split; [done |]). by intros r. }
  specialize (Hfound r eq_refl). unfold found in Hfound.
  destruct (pedidos w !! id) as [row |] eqn:E.
  - destruct Hfound as (p & -> & Hp). specialize (Hrow row eq_refl).
    rewrite <- (entity_estado _ _ _ Hp) in Hrow.
    case_decide; [| done].
    do 2 eexists. split; [done |]. split; [eapply (fault_run_retag _ _ _ _ Hrun) |].
    split; [done |]. by intros r [= <-].
  - subst r. do 2 eexists. split; [done |]. split; [eapply (fault_run_retag _ _ _ _ Hrun) |].
    split; [done |]. by intros r [= <-].
Qed.

(** [procesarPago] on a pending order, by cases on the reference that the
    payment method gives. *)
Lemma procesarPago_try_pending (id : Z) (paymentInfo : PaymentInfo) (w : World)
    (row : PedidoRow) :
  pedidos w !! id = Some row → row_estado row = PENDIENTE →
  ∃ o w', procesarPago_try id paymentInfo w = (o, w') ∧
          pedido_items w' = pedido_items w ∧ gateway_calls w' = gateway_calls w ∧
          match (referencia_de_pago (metodo_pago row) paymentInfo w).1 with
          | Throw e =>
              pedidos w' = pedidos w ∧ persisted w' = persisted w ∧
              ((o = Throw e ∧ storage_run w (Ok tt) w') ∨
               ((∃ e', o = Throw e') ∧ storage_run w o w'))
          | Ok None =>
              pedidos w' = pedidos w ∧ persisted w' = persisted w ∧
              storage_run w o w' ∧ ∀ r, o = Ok r → r = pago_error UNSUPPORTED
          | Ok (Some referenciaPago') =>
              storage_run w o w' ∧
              ∀ r, o = Ok r →
                   r = pago_ok referenciaPago' ∧
                   ∃ t1 t2,
                     let referenced :=
                       alter (row_with_referencia_pago referenciaPago' t1) id (pedidos w) in
                     pedidos w' = alter (row_with_estado PAGADO t2) id referenced ∧
                     persisted w' = pedidos w' :: referenced :: persisted w
          end.
Proof.
  intros Hrow Hpend. unfold procesarPago_try. msimpl.
  destruct (findById_run id w) as (o & w1 & -> & Hrun & Hreads & Hfound).
  destruct o as [r | e].
  2: { destruct Hreads. do 2 eexists. split; [done |]. do 2 (split; [done |]).
       destruct (referencia_de_pago _ _ _).1 as [[ref |] | e0].
       - by split.
       - by repeat split.
       - do 2 (split; [done |]). right. split; [by exists e | done]. }
  specialize (Hfound r eq_refl). unfold found in Hfound. rewrite Hrow in Hfound.
  destruct Hfound as (p & -> & Hp).
  rewrite (entity_estado _ _ _ Hp), Hpend. case_decide; [done |].
  rewrite (entity_metodoPago _ _ _ Hp).
  pose proof (referencia_de_pago_frame (metodo_pago row) paymentInfo w1)
    as (Hf & Hp2 & Hi2 & Hs2 & Hg2).
  rewrite <- (referencia_de_pago_oracle (metodo_pago row) paymentInfo w1 w)
    by apply Hreads.
  destruct (referencia_de_pago (metodo_pago row) paymentInfo w1) as [o2 w2].
  destruct Hreads. cbn [fst snd] in *.
  assert (storage_run w (Ok tt) w2) as Hrun2.
  { rewrite Hf. eapply (fault_run_retag _ _ _ _ Hrun). }
  destruct o2 as [[ref |] | e].
  - destruct (updateReferenciaPago_run id ref w2)
      as (o3 & w3 & -> & Hrun3 & Hi3 & Hr3 & Hg3 & Hok3).
    destruct o3 as [r3 | e3].
    2: { do 2 eexists. split; [done |]. split; [congruence |]. split; [congruence |].
         split; [| done]. eapply fault_run_trans; [apply Hrun2 | apply Hrun3]. }
    destruct (Hok3 r3 eq_refl) as (Hp3 & Hs3 & Hc3 & _).
    destruct (updateEstado_run id PAGADO w3)
      as (o4 & w4 & -> & Hrun4 & Hi4 & Hr4 & Hg4 & Hok4).
    assert (∀ B (o : Outcome B), fault_run (faults w3) o (faults w4) →
                                 fault_run (faults w) o (faults w4)) as Hall.
    { intros B o Ho. eapply fault_run_trans; [apply Hrun2 |].
      eapply fault_run_trans; [apply Hrun3 | apply Ho]. }
    destruct o4 as [r4 | e4].
    2: { do 2 eexists. split; [done |]. split; [congruence |]. split; [congruence |].
         split; [| done]. by apply Hall. }
    destruct (Hok4 r4 eq_refl) as (Hp4 & Hs4 & Hc4 & _).
    do 2 eexists. split; [done |]. split; [congruence |]. split; [congruence |].
    split; [apply Hall, (fault_run_retag _ _ _ _ Hrun4) |].
    intros r [= <-]. split; [done |].
    exists (default 0 (head (clock w2))), (default 0 (head (clock w3))).
    cbn zeta. split; congruence.
  - do 2 eexists. split; [done |]. split; [congruence |]. split; [congruence |].
    split; [congruence |]. split; [congruence |].
    split; [eapply (fault_run_retag _ _ _ _ Hrun2) |]. by intros r [= <-].
  - do 2 eexists. split; [done |]. split; [congruence |]. split; [congruence |].
    split; [congruence |]. split; [congruence |]. left. by split.
Qed.

(** ** The entity: total and items *)

Lemma reduce_subtotal_sum (h : loc → PedidoItem) (items : list loc) :
  reduce_subtotal h items = sum_subtotals h items.
Proof. reflexivity. Qed.

Lemma addItem_run (item : loc) (p : Pedido) (w : World) :
  addItem item p w =
  (Ok (with_updatedAt (default 0 (head (clock w)))
         (with_total (sum_subtotals (heap w) (getItems p ++ [item]))
            (with_items (getItems p ++ [item]) p))),
   set_clock tail w).
Proof. unfold addItem, recalcularTotal, touch. msimpl. by rewrite reduce_subtotal_sum. Qed.

Lemma removeItem_run (productoId' : Z) (p : Pedido) (w : World) :
  let items' := filter (λ item, productoId (heap w item) ≠ productoId') (getItems p) in
  removeItem productoId' p w =
  (Ok (with_updatedAt (default 0 (head (clock w)))
         (with_total (sum_subtotals (heap w) items') (with_items items' p))),
   set_clock tail w).
Proof. unfold removeItem, recalcularTotal, touch. msimpl. by rewrite reduce_subtotal_sum. Qed.

Lemma find_producto_None (w : World) (p : Pedido) (productoId' : Z) :
  ¬ has_producto w p productoId' ↔
  List.find (λ item, bool_decide (productoId (heap w item) = productoId')) (getItems p) = None.
Proof.
  unfold has_producto. split.
  - intros Hno. destruct (List.find _ _) as [item |] eqn:E; [| done].
    apply find_some in E as [Hin Hb]. apply bool_decide_eq_true in Hb.
    destruct Hno. exists item. split; [by apply list_elem_of_In | done].
  - intros E (item & Hin & Hid).
    apply list_elem_of_In in Hin. apply (find_none _ _ E item) in Hin.
    by apply bool_decide_eq_false in Hin.
Qed.

Lemma find_producto_Some (w : World) (p : Pedido) (productoId' : Z) :
  has_producto w p productoId' →
  ∃ item, List.find (λ item, bool_decide (productoId (heap w item) = productoId'))
            (getItems p) = Some item ∧
          item ∈ getItems p ∧ productoId (heap w item) = productoId'.
Proof.
  intros Hhas. destruct (List.find _ _) as [item |] eqn:E.
  - exists item. split; [done |]. apply find_some in E as [Hin Hb].
    split; [by apply list_elem_of_In | by apply bool_decide_eq_true in Hb].
  - by apply find_producto_None in E.
Qed.

Lemma updateItemCantidad_absent (productoId' : Z) (cantidad' : number) (p : Pedido)
    (w : World) :
  ¬ has_producto w p productoId' →
  updateItemCantidad productoId' cantidad' p w = (Ok p, w).
Proof.
  intros Hno. apply find_producto_None in Hno.
  unfold updateItemCantidad. msimpl. by rewrite Hno.
Qed.

Lemma updateItemCantidad_found (productoId' : Z) (cantidad' : number) (p : Pedido)
    (w : World) (item : loc) :
  List.find (λ item, bool_decide (productoId (heap w item) = productoId')) (getItems p)
  = Some item →
  let h' := heap_update item (update_item_cantidad cantidad') (heap w) in
  updateItemCantidad productoId' cantidad' p w =
  (Ok (with_updatedAt (default 0 (head (clock w)))
         (with_total (sum_subtotals h' (getItems p)) p)),
   set_clock tail (set_heap (λ _, h') w)).
Proof.
  intros E. unfold updateItemCantidad, recalcularTotal, touch. msimpl. rewrite E.
  msimpl. wsimpl. by rewrite reduce_subtotal_sum.
Qed.

Lemma filter_absent (w : World) (p : Pedido) (productoId' : Z) :
  ¬ has_producto w p productoId' →
  filter (λ item, productoId (heap w item) ≠ productoId') (getItems p) = getItems p.
Proof.
  unfold has_producto. intros Hno.
  induction (getItems p) as [| item items IH]; [done |].
  rewrite filter_cons. case_decide as Hid.
  - f_equal. apply IH. intros (i & Hin & Hi). apply Hno. exists i. split; [by right | done].
  - destruct Hno. exists item. split; [by left |].
    by destruct (decide (productoId (heap w item) = productoId')).
Qed.

(** The item that [find] gives is the first line of the product. *)
Lemma find_first (w : World) (productoId' : Z) (items : list loc) (item : loc) :
  List.find (λ item, bool_decide (productoId (heap w item) = productoId')) items = Some item →
  ∃ before after, items = before ++ item :: after ∧
                  Forall (λ l, productoId (heap w l) ≠ productoId') before ∧
                  productoId (heap w item) = productoId'.
Proof.
  induction items as [| i items IH]; [done |]. simpl. case_bool_decide as Hi.
  - intros [= <-]. by exists [], items.
  - intros E. destruct (IH E) as (before & after & -> & Hb & Hid).
    exists (i :: before), after. split; [done |]. split; [by constructor | done].
Qed.

(** A call that recomputes the total leaves it equal to the sum. *)
Lemma step_recomputes (op : ItemOp) (s : World * Pedido) :
  recomputes op s → total_ok (step op s).1 (step op s).2.
Proof.
  destruct s as [w p]. unfold step, total_ok, recomputes.
  destruct op as [item | pid | pid q]; cbn [apply_op fst snd]; intros Hrec.
  - by rewrite addItem_run.
  - by rewrite removeItem_run.
  - destruct (find_producto_Some _ _ _ Hrec) as (item & E & _).
    by rewrite (updateItemCantidad_found _ _ _ _ _ E).
Qed.

(** A call that does not recompute the total changes nothing. *)
Lemma step_not_recomputes (op : ItemOp) (s : World * Pedido) :
  ¬ recomputes op s → step op s = s.
Proof.
  destruct s as [w p]. unfold step, recomputes.
  destruct op as [item | pid | pid q]; cbn [apply_op fst snd]; intros Hrec; try done.
  by rewrite updateItemCantidad_absent.
Qed.

Lemma recomputes_dec (op : ItemOp) (s : World * Pedido) :
  recomputes op s ∨ ¬ recomputes op s.
Proof.
  destruct op as [item | pid | pid q]; simpl; try by left.
  destruct (List.find (λ item, bool_decide (productoId (heap s.1 item) = pid)) (getItems s.2))
    as [item |] eqn:E.
  - left. apply find_some in E as [Hin Hb]. exists item.
    split; [by apply list_elem_of_In | by apply bool_decide_eq_true in Hb].
  - right. by apply find_producto_None.
Qed.

Lemma step_total_ok (op : ItemOp) (s : World * Pedido) :
  total_ok s.1 s.2 → total_ok (step op s).1 (step op s).2.
Proof.
  intros Hok. destruct (recomputes_dec op s) as [H | H].
  - by apply step_recomputes.
  - by rewrite step_not_recomputes.
Qed.

Lemma states_after_total_ok (ops : list ItemOp) (s : World * Pedido) :
  total_ok s.1 s.2 → Forall (λ s', total_ok s'.1 s'.2) (states_after ops s).
Proof.
  revert s. induction ops as [| op ops IH]; intros s Hok; simpl; constructor.
  - by apply step_total_ok.
  - by apply IH, step_total_ok.
Qed.

(** ** The service: settlement *)

Lemma procesarPago_unfold (id : Z) (paymentInfo : PaymentInfo) (w : World) :
  procesarPago id paymentInfo w =
  match procesarPago_try id paymentInfo w with
  | (Ok r, w') => (Ok r, w')
  | (Throw e, w') =>
      (Ok (pago_error e),
       set_log (λ l, ("Error al procesar pago del pedido " +:+ pretty id +:+ ": " +:+ e) :: l) w')
  end.
Proof.
  unfold procesarPago. msimpl.
  by destruct (procesarPago_try id paymentInfo w) as [[r | e] w'].
Qed.

Lemma alter_found (f : PedidoRow → PedidoRow) (id : Z) (t : gmap Z PedidoRow)
    (row : PedidoRow) :
  t !! id = Some row → alter f id t = <[id := f row]> t.
Proof.
  intros Hrow. apply map_eq. intros j. destruct (decide (id = j)) as [<- | Hne].
  - by rewrite lookup_alter_eq, lookup_insert_eq, Hrow.
  - by rewrite lookup_alter_ne, lookup_insert_ne.
Qed.

(** What a settlement that succeeded found and left. *)
Lemma procesarPago_success (id : Z) (paymentInfo : PaymentInfo) (w w' : World)
    (r : PagoResult) :
  procesarPago id paymentInfo w = (Ok r, w') → success r = true →
  ∃ row referenciaPago' t1 t2,
    pedidos w !! id = Some row ∧ row_estado row = PENDIENTE ∧
    r = pago_ok referenciaPago' ∧
    pedidos w' =
      <[id := row_with_estado PAGADO t2 (row_with_referencia_pago referenciaPago' t1 row)]>
        (pedidos w) ∧
    pedido_items w' = pedido_items w.
Proof.
  rewrite procesarPago_unfold. intros Hrun Hsucc.
  destruct (pedidos w !! id) as [row |] eqn:Hrow.
  2: { destruct (procesarPago_try_rejects id paymentInfo w) as (o & w1 & E & _ & _ & Hr).
       { intros row. by rewrite Hrow. }
       rewrite E in Hrun. destruct o as [r1 | e]; [| by simplify_eq]. simplify_eq.
       by rewrite (Hr r eq_refl) in Hsucc. }
  destruct (decide (row_estado row = PENDIENTE)) as [Hpend | Hpend].
  2: { destruct (procesarPago_try_rejects id paymentInfo w) as (o & w1 & E & _ & _ & Hr).
       { intros row' Hrow'. congruence. }
       rewrite E in Hrun. destruct o as [r1 | e]; [| by simplify_eq]. simplify_eq.
       by rewrite (Hr r eq_refl) in Hsucc. }
  destruct (procesarPago_try_pending id paymentInfo w row Hrow Hpend)
    as (o & w1 & E & Hitems & _ & Hcases).
  rewrite E in Hrun. destruct o as [r1 | e]; [| by simplify_eq]. simplify_eq.
  destruct (referencia_de_pago _ _ _).1 as [[ref |] | e].
  - destruct Hcases as [_ Hok]. destruct (Hok r eq_refl) as (-> & t1 & t2 & Hp & _).
    exists row, ref, t1, t2. repeat split; try done.
    rewrite Hp. rewrite (alter_found _ _ _ _ Hrow).
    rewrite (alter_found _ id _ (row_with_referencia_pago ref t1 row))
      by apply lookup_insert_eq.
    by rewrite insert_insert_eq.
  - destruct Hcases as (_ & _ & _ & Hr). by rewrite (Hr r eq_refl) in Hsucc.
  - destruct Hcases as (_ & _ & [[? _] | [[e' ?] _]]); done.
Qed.

(** What a settlement attempt finds on an order that is not pending. *)
Lemma procesarPago_non_pending (id : Z) (paymentInfo : PaymentInfo) (w : World)
    (row : PedidoRow) :
  pedidos w !! id = Some row → row_estado row ≠ PENDIENTE →
  ∃ r w', procesarPago id paymentInfo w = (Ok r, w') ∧
          success r = false ∧
          (no_storage_faults w → r = pago_error NOT_PENDING) ∧
          pedidos w' = pedidos w ∧ pedido_items w' = pedido_items w ∧
          persisted w' = persisted w.
Proof.
  intros Hrow Hest. rewrite procesarPago_unfold.
  destruct (procesarPago_try_rejects id paymentInfo w) as (o & w1 & -> & Hrun & [] & Hr).
  { intros row' Hrow'. congruence. }
  rewrite Hrow in Hr. destruct o as [r | e].
  - exists r, w1. rewrite (Hr r eq_refl). by repeat split.
  - eexists _, _. split; [done |]. split; [done |]. split; [| by repeat split].
    intros Hq. by destruct (storage_run_quiet _ _ _ Hrun Hq) as [[a ?] _].
Qed.

(** C1. [procesarPago] on an order that exists and is not pending returns a
    failure, the not-pending error unless the read itself raised, and leaves
    the stored order (state, payment reference, every other column), its
    items and the history of writes as they were. Consequently, after a
    settlement that succeeded, a second attempt on the same order is
    rejected in the same way and leaves the order as the first one left
    it. *)
Theorem procesarPago_rejects_non_pending :
  (∀ (id : Z) (paymentInfo : PaymentInfo) (w : World) (row : PedidoRow),
     pedidos w !! id = Some row → row_estado row ≠ PENDIENTE →
     ∃ r w', procesarPago id paymentInfo w = (Ok r, w') ∧
             success r = false ∧
             (no_storage_faults w → r = pago_error NOT_PENDING) ∧
             pedidos w' = pedidos w ∧ pedido_items w' = pedido_items w ∧
             persisted w' = persisted w) ∧
  (∀ (id : Z) (first second : PaymentInfo) (w w1 : World) (r1 : PagoResult),
     procesarPago id first w = (Ok r1, w1) → success r1 = true →
     stored_estado id w1 = Some PAGADO ∧
     ∃ r2 w2, procesarPago id second w1 = (Ok r2, w2) ∧
              success r2 = false ∧
              (no_storage_faults w1 → r2 = pago_error NOT_PENDING) ∧
              pedidos w2 = pedidos w1 ∧ pedido_items w2 = pedido_items w1 ∧
              persisted w2 = persisted w1).
Proof.
  split; [apply procesarPago_non_pending |].
  intros id first second w w1 r1 Hrun Hsucc.
  destruct (procesarPago_success _ _ _ _ _ Hrun Hsucc)
    as (row & ref & t1 & t2 & _ & _ & _ & Hp & _).
  assert (pedidos w1 !! id
          = Some (row_with_estado PAGADO t2 (row_with_referencia_pago ref t1 row))) as Hrow1.
  { rewrite Hp. apply lookup_insert_eq. }
  split.
  - unfold stored_estado. by rewrite Hrow1.
  - by apply (procesarPago_non_pending id second w1 _ Hrow1).
Qed.

(** On order 1, already paid, and on order 1 just settled by a first call. *)
Lemma procesarPago_rejects_non_pending_witness :
  (∃ r w', procesarPago 1 (InfoObject (Some "TR-2"))
             (example_db PAGADO TRANSFERENCIA (Some "TR-1") []) = (Ok r, w') ∧
           success r = false ∧
           (no_storage_faults (example_db PAGADO TRANSFERENCIA (Some "TR-1") []) →
            r = pago_error NOT_PENDING) ∧
           pedidos w' = pedidos (example_db PAGADO TRANSFERENCIA (Some "TR-1") []) ∧
           pedido_items w' = pedido_items (example_db PAGADO TRANSFERENCIA (Some "TR-1") []) ∧
           persisted w' = persisted (example_db PAGADO TRANSFERENCIA (Some "TR-1") [])) ∧
  (let w1 := (procesarPago 1 (InfoObject (Some "TR-1"))
                (example_db PENDIENTE TRANSFERENCIA None [])).2 in
   stored_estado 1 w1 = Some PAGADO ∧
   ∃ r2 w2, procesarPago 1 (InfoObject (Some "TR-2")) w1 = (Ok r2, w2) ∧
            success r2 = false ∧
            (no_storage_faults w1 → r2 = pago_error NOT_PENDING) ∧
            pedidos w2 = pedidos w1 ∧ pedido_items w2 = pedido_items w1 ∧
            persisted w2 = persisted w1).
Proof.
  split.
  - apply (proj1 procesarPago_rejects_non_pending 1 _ _
             (example_row PAGADO TRANSFERENCIA (Some "TR-1"))).
    + by vm_compute.
    + discriminate.
  - apply (proj2 procesarPago_rejects_non_pending 1 (InfoObject (Some "TR-1"))
             (InfoObject (Some "TR-2")) (example_db PENDIENTE TRANSFERENCIA None [])
             _ (pago_ok "TR-1")).
    + by vm_compute.
    + reflexivity.
Defined.

(** C10. [procesarPago] always returns a result and never throws: the
    result is [{success: true, referenciaPago}] with no error, or
    [{success: false, error}] with no reference. When the storage raised an
    exception during the run (in the read or in either write), the result is
    [{success: false, error}] with that exception's message as its error. *)
Theorem procesarPago_returns_result (pedidoId : Z) (paymentInfo : PaymentInfo) (w : World) :
  ∃ r w', procesarPago pedidoId paymentInfo w = (Ok r, w') ∧
          ((success r = true ∧ (∃ referenciaPago', referenciaPago r = Some referenciaPago') ∧
            error r = None) ∨
           (success r = false ∧ referenciaPago r = None ∧
            ∃ message, error r = Some message)) ∧
          ∀ message, storage_raised w w' message →
                     success r = false ∧ referenciaPago r = None ∧
                     error r = Some message.
Proof.
  rewrite procesarPago_unfold.
  assert (∃ o w1, procesarPago_try pedidoId paymentInfo w = (o, w1) ∧
                  (storage_run w o w1 ∨
                   ((∃ e, o = Throw e) ∧ storage_run w (Ok tt) w1)) ∧
                  ∀ r, o = Ok r →
                       (∃ ref, r = pago_ok ref) ∨ (∃ message, r = pago_error message))
    as (o & w1 & -> & Hrun & Hshape).
  { destruct (pedidos w !! pedidoId) as [row |] eqn:Hrow.
    2: { destruct (procesarPago_try_rejects pedidoId paymentInfo w)
           as (o & w1 & E & Hrun & _ & Hr).
         { intros row. by rewrite Hrow. }
         exists o, w1. split; [done |]. split; [by left |]. intros r ->. right. eauto. }
    destruct (decide (row_estado row = PENDIENTE)) as [Hpend | Hpend].
    2: { destruct (procesarPago_try_rejects pedidoId paymentInfo w)
           as (o & w1 & E & Hrun & _ & Hr).
         { intros row' Hrow'. congruence. }
         exists o, w1. split; [done |]. split; [by left |]. intros r ->. right. eauto. }
    destruct (procesarPago_try_pending pedidoId paymentInfo w row Hrow Hpend)
      as (o & w1 & E & _ & _ & Hcases).
    exists o, w1. split; [done |].
    destruct (referencia_de_pago _ _ _).1 as [[ref |] | e] eqn:Href.
    - destruct Hcases as [Hrun Hok]. split; [by left |].
      intros r ->. left. exists ref. by destruct (Hok r eq_refl).
    - destruct Hcases as (_ & _ & Hrun & Hr). split; [by left |].
      intros r ->. right. eauto.
    - destruct Hcases as (_ & _ & [[-> Hrun] | [[e' ->] Hrun]]).
      + split; [| done]. right. split; [by eexists | done].
      + split; [by left | done]. }
  destruct o as [r | e].
  - exists r, w1. split; [done |]. split.
    + destruct (Hshape r eq_refl) as [[ref ->] | [m ->]]; [left | right]; cbn; eauto.
    + intros message Hraised. destruct Hrun as [Hrun | [[? ?] _]]; [| done].
      by pose proof (storage_run_raised _ _ _ _ Hrun Hraised).
  - eexists _, _. split; [done |]. split; [right; cbn; eauto |].
    intros message Hraised. destruct Hrun as [Hrun | [_ Hrun]].
    + pose proof (storage_run_raised _ _ _ _ Hrun Hraised). by simplify_eq.
    + by pose proof (storage_run_raised _ _ _ _ Hrun Hraised).
Qed.

(** A run in which the storage raises on the write of the state. *)
Lemma procesarPago_returns_result_witness :
  let w := example_db PENDIENTE TRANSFERENCIA None
             (replicate 11 None ++ [Some "ER_LOCK_DEADLOCK"]) in
  ∃ r w', procesarPago 1 (InfoObject (Some "TR-1")) w = (Ok r, w') ∧
          storage_raised w w' "ER_LOCK_DEADLOCK" ∧
          success r = false ∧ referenciaPago r = None ∧
          error r = Some "ER_LOCK_DEADLOCK".
Proof.
  cbv zeta.
  destruct (procesarPago_returns_result 1 (InfoObject (Some "TR-1"))
              (example_db PENDIENTE TRANSFERENCIA None
                 (replicate 11 None ++ [Some "ER_LOCK_DEADLOCK"])))
    as (r & w' & E & _ & Hraised).
  assert (faults w' = []) as Hfaults.
  { vm_compute in E. by injection E as _ <-. }
  assert (storage_raised
            (example_db PENDIENTE TRANSFERENCIA None
               (replicate 11 None ++ [Some "ER_LOCK_DEADLOCK"]))
            w' "ER_LOCK_DEADLOCK") as Hr.
  { exists (replicate 11 None). by rewrite Hfaults. }
  exists r, w'. split; [done |]. split; [done |]. by apply Hraised.
Defined.

(** The three places where the storage can fail during a settlement: the
    read, the write of the reference, the write of the state. *)
Example procesarPago_storage_failures :
  (procesarPago 1 (InfoObject (Some "TR-1"))
     (example_db PENDIENTE TRANSFERENCIA None [None; Some "ECONNRESET"])).1
  = Ok (pago_error "ECONNRESET") ∧
  (procesarPago 1 (InfoObject (Some "TR-1"))
     (example_db PENDIENTE TRANSFERENCIA None
        (replicate 5 None ++ [Some "ER_LOCK_WAIT_TIMEOUT"]))).1
  = Ok (pago_error "ER_LOCK_WAIT_TIMEOUT") ∧
  (procesarPago 1 (InfoObject (Some "TR-1"))
     (example_db PENDIENTE TRANSFERENCIA None
        (replicate 11 None ++ [Some "ER_LOCK_DEADLOCK"]))).1
  = Ok (pago_error "ER_LOCK_DEADLOCK").
Proof. by vm_compute. Qed.




(** The bank transfer scenario of the specification, evaluated. *)
Example procesarPago_transferencia_scenario :
  let r := procesarPago 1 (InfoObject (Some "TR-1"))
             (example_db PENDIENTE TRANSFERENCIA None []) in
  r.1 = Ok (pago_ok "TR-1") ∧
  stored_estado 1 r.2 = Some PAGADO ∧
  stored_referencia 1 r.2 = Some (Some "TR-1") ∧
  gateway_calls r.2 = [] ∧
  (procesarPago 1 (InfoObject None) (example_db PENDIENTE TRANSFERENCIA None [])).1
  = Ok (pago_ok "transfer_100").
Proof. by vm_compute. Qed.

(** ** The service: state changes *)

(** C3, as the code has it. [updateEstadoPedido] has no table of legal
    transitions: on an existing order, whatever its current state and
    whatever the target, it throws only what the storage raised, and when
    the storage does not fail it stores the target state, stamps
    [updated_at], leaves the other columns and the items as they were and
    returns the order read back. *)
Theorem updateEstadoPedido_any_transition (id : Z) (estado : EstadoPedido) (w : World)
    (row : PedidoRow) :
  pedidos w !! id = Some row →
  ∃ o w', updateEstadoPedido id estado w = (o, w') ∧
          storage_run w o w' ∧
          (no_storage_faults w →
           let row' := row_with_estado estado (default 0 (head (clock w))) row in
           ∃ p, o = Ok (Some p) ∧ entity_of_row id row' p ∧ getEstado p = estado ∧
                pedidos w' = <[id := row']> (pedidos w) ∧
                pedido_items w' = pedido_items w).
Proof.
  intros Hrow. unfold updateEstadoPedido. msimpl.
  destruct (updateEstado_run id estado w) as (o & w1 & -> & Hrun & Hitems & _ & _ & Hok).
  destruct o as [r | e].
  - exists (Ok r), w1. split; [done |]. split; [done |]. intros _.
    destruct (Hok r eq_refl) as (Hp & _ & _ & Hfound). cbn zeta.
    rewrite (alter_found _ _ _ _ Hrow) in Hp. unfold found in Hfound.
    rewrite Hp, lookup_insert_eq in Hfound. destruct Hfound as (p & -> & Hent).
    exists p. split; [done |]. split; [done |]. split; [| done].
    by rewrite (entity_estado _ _ _ Hent).
  - eexists _, _. split; [done |]. split; [done |]. intros Hq.
    by destruct (storage_run_quiet _ _ _ Hrun Hq) as [[a ?] _].
Qed.

(** A cancelled order is made paid. *)
Lemma updateEstadoPedido_any_transition_witness :
  let w := example_db CANCELADO STRIPE (Some "stripe_1_2") [] in
  ∃ o w', updateEstadoPedido 1 PAGADO w = (o, w') ∧
          storage_run w o w' ∧
          (no_storage_faults w →
           let row' :=
             row_with_estado PAGADO 100 (example_row CANCELADO STRIPE (Some "stripe_1_2")) in
           ∃ p, o = Ok (Some p) ∧ entity_of_row 1 row' p ∧ getEstado p = PAGADO ∧
                pedidos w' = <[1 := row']> (pedidos w) ∧
                pedido_items w' = pedido_items w).
Proof.
  apply (updateEstadoPedido_any_transition 1 PAGADO
           (example_db CANCELADO STRIPE (Some "stripe_1_2") [])
           (example_row CANCELADO STRIPE (Some "stripe_1_2"))).
  by vm_compute.
Defined.

(** C3 fails on the code: a delivered order is put back to pending, and a
    shipped one to paid, without any error. *)
Lemma updateEstadoPedido_entregado_to_pendiente :
  (∃ p w', updateEstadoPedido 1 PENDIENTE (example_db ENTREGADO STRIPE (Some "stripe_1_2") [])
           = (Ok (Some p), w') ∧
           getEstado p = PENDIENTE ∧ stored_estado 1 w' = Some PENDIENTE) ∧
  (∃ p w', updateEstadoPedido 1 PAGADO (example_db ENVIADO STRIPE (Some "stripe_1_2") [])
           = (Ok (Some p), w') ∧
           getEstado p = PAGADO ∧ stored_estado 1 w' = Some PAGADO).
Proof. split; eexists _, _; (split; [by vm_compute | by vm_compute]). Qed.

(** C2 fails on the code. The reference and the state are written by two
    statements with no transaction around them. When the second one fails
    the order is left pending with a payment reference, and the caller is
    told that the payment failed; and when both succeed, the table has been
    observable in between with the reference recorded on a pending order. *)
Theorem procesarPago_reference_without_paid :
  let failed :=
    procesarPago 1 (InfoObject (Some "TR-1"))
      (example_db PENDIENTE TRANSFERENCIA None (replicate 11 None ++ [Some "ER_LOCK_DEADLOCK"])) in
  let settled :=
    procesarPago 1 (InfoObject (Some "TR-1")) (example_db PENDIENTE TRANSFERENCIA None []) in
  failed.1 = Ok (pago_error "ER_LOCK_DEADLOCK") ∧
  stored_estado 1 failed.2 = Some PENDIENTE ∧
  stored_referencia 1 failed.2 = Some (Some "TR-1") ∧
  settled.1 = Ok (pago_ok "TR-1") ∧
  (λ t : gmap Z PedidoRow, (row_estado <$> t !! 1, referencia_pago <$> t !! 1))
    <$> persisted settled.2
  = [(Some PAGADO, Some (Some "TR-1")); (Some PENDIENTE, Some (Some "TR-1"))].
Proof. by vm_compute. Qed.

(** The same on every settlement that succeeds: between its two writes the
    table held the order pending with the reference recorded. *)
Lemma procesarPago_success_history (id : Z) (paymentInfo : PaymentInfo) (w w' : World)
    (referenciaPago' : string) :
  procesarPago id paymentInfo w = (Ok (pago_ok referenciaPago'), w') →
  ∃ between, persisted w' = pedidos w' :: between :: persisted w ∧
             row_estado <$> between !! id = Some PENDIENTE ∧
             referencia_pago <$> between !! id = Some (Some referenciaPago').
Proof.
  rewrite procesarPago_unfold. intros Hrun.
  destruct (pedidos w !! id) as [row |] eqn:Hrow.
  2: { destruct (procesarPago_try_rejects id paymentInfo w) as (o & w1 & E & _ & _ & Hr).
       { intros row. by rewrite Hrow. }
       rewrite E in Hrun. destruct o as [r1 | e]; [| by simplify_eq]. simplify_eq.
       by specialize (Hr _ eq_refl). }
  destruct (decide (row_estado row = PENDIENTE)) as [Hpend | Hpend].
  2: { destruct (procesarPago_try_rejects id paymentInfo w) as (o & w1 & E & _ & _ & Hr).
       { intros row' Hrow'. congruence. }
       rewrite E in Hrun. destruct o as [r1 | e]; [| by simplify_eq]. simplify_eq.
       by specialize (Hr _ eq_refl). }
  destruct (procesarPago_try_pending id paymentInfo w row Hrow Hpend)
    as (o & w1 & E & _ & _ & Hcases).
  rewrite E in Hrun. destruct o as [r1 | e]; [| by simplify_eq]. simplify_eq.
  destruct (referencia_de_pago _ _ _).1 as [[ref |] | e].
  - destruct Hcases as [_ Hok]. destruct (Hok _ eq_refl) as (Href & t1 & t2 & _ & Hs).
    injection Href as <-. eexists. split; [apply Hs |].
    rewrite lookup_alter_eq, Hrow. cbn. by rewrite Hpend.
  - destruct Hcases as (_ & _ & _ & Hr). by specialize (Hr _ eq_refl).
  - destruct Hcases as (_ & _ & [[? _] | [[e' ?] _]]); done.
Qed.

(** C8 fails on the code. For [stripe] and [paypal] the service asks no
    gateway: it makes the reference up from the clock and a random number,
    whatever the payload, and marks the order paid, here while Stripe would
    report the payment intent as canceled. *)
Theorem procesarPago_stripe_without_gateway :
  let w := example_db PENDIENTE STRIPE None [] in
  let settled := procesarPago 1 (InfoObject None) w in
  (confirmPayment "pi_1" w).1
  = Ok (mkConfirmResult false "canceled"
          (Some "El pago no se pudo completar. Estado: canceled")) ∧
  settled.1 = Ok (pago_ok "stripe_100_5") ∧
  stored_estado 1 settled.2 = Some PAGADO ∧
  stored_referencia 1 settled.2 = Some (Some "stripe_100_5") ∧
  gateway_calls settled.2 = [] ∧
  (procesarPago 1 InfoNull w).1 = settled.1 ∧
  (procesarPago 1 InfoUndefined w).1 = settled.1 ∧
  (procesarPago 1 (InfoObject (Some "pi_1")) w).1 = settled.1 ∧
  (procesarPago 1 (InfoObject None) (example_db PENDIENTE PAYPAL None [])).1
  = Ok (pago_ok "paypal_100_5").
Proof. by vm_compute. Qed.

(** The service never calls the gateway, whatever the order, the method and
    the payload. *)
Lemma procesarPago_gateway_calls (id : Z) (paymentInfo : PaymentInfo) (w : World) :
  gateway_calls (procesarPago id paymentInfo w).2 = gateway_calls w.
Proof.
  rewrite procesarPago_unfold.
  assert (∃ o w1, procesarPago_try id paymentInfo w = (o, w1) ∧
                  gateway_calls w1 = gateway_calls w) as (o & w1 & -> & Hgw).
  { destruct (pedidos w !! id) as [row |] eqn:Hrow.
    2: { destruct (procesarPago_try_rejects id paymentInfo w) as (o & w1 & E & _ & [] & _).
         { intros row. by rewrite Hrow. }
         by exists o, w1. }
    destruct (decide (row_estado row = PENDIENTE)) as [Hpend | Hpend].
    2: { destruct (procesarPago_try_rejects id paymentInfo w) as (o & w1 & E & _ & [] & _).
         { intros row' Hrow'. congruence. }
         by exists o, w1. }
    destruct (procesarPago_try_pending id paymentInfo w row Hrow Hpend)
      as (o & w1 & E & _ & Hgw & _).
    by exists o, w1. }
  by destruct o.
Qed.

(** What the two gateway methods do on a pending order when the storage
    does not fail: a reference made of the method's name, the clock and the
    random number is recorded and the order is left paid, for any payload. *)
Lemma procesarPago_stripe_paypal (id : Z) (paymentInfo : PaymentInfo) (w : World)
    (row : PedidoRow) :
  pedidos w !! id = Some row → row_estado row = PENDIENTE →
  metodo_pago row = STRIPE ∨ metodo_pago row = PAYPAL → no_storage_faults w →
  let referenciaPago' :=
    metodo_pago row +:+ "_" +:+ pretty (default 0 (head (clock w)))
                    +:+ "_" +:+ pretty (default 0 (head (random w))) in
  (procesarPago id paymentInfo w).1 = Ok (pago_ok referenciaPago') ∧
  stored_estado id (procesarPago id paymentInfo w).2 = Some PAGADO ∧
  stored_referencia id (procesarPago id paymentInfo w).2 = Some (Some referenciaPago').
Proof.
  intros Hrow Hpend Hmet Hq.
  destruct (procesarPago_try_pending id paymentInfo w row Hrow Hpend)
    as (o & w1 & E & _ & _ & Hcases).
  assert ((referencia_de_pago (metodo_pago row) paymentInfo w).1
          = Ok (Some (metodo_pago row +:+ "_" +:+ pretty (default 0 (head (clock w)))
                                  +:+ "_" +:+ pretty (default 0 (head (random w))))))
    as Href.
  { destruct Hmet as [-> | ->]; reflexivity. }
  rewrite Href in Hcases. destruct Hcases as [Hrun Hok].
  destruct (storage_run_quiet _ _ _ Hrun Hq) as [[r ->] _].
  destruct (Hok r eq_refl) as (-> & t1 & t2 & Hp & _).
  rewrite procesarPago_unfold, E. cbn [fst snd]. split; [done |].
  unfold stored_estado, stored_referencia.
  by rewrite Hp, !lookup_alter_eq, Hrow.
Qed.

(** For these two methods the payload is never read. *)
Lemma referencia_de_pago_ignores_payload (metodoPago : string) (first second : PaymentInfo) :
  metodoPago = STRIPE ∨ metodoPago = PAYPAL →
  referencia_de_pago metodoPago first = referencia_de_pago metodoPago second.
Proof.
  intros [-> | ->]; unfold referencia_de_pago; by repeat case_decide.
Qed.

(** ** The entity: the claims on total, items and payment reference *)

Example toEntity_scenario :
  toEntity (example_dto Undefined) example_entity_world
  = (Ok example_pedido, example_entity_world_later).
Proof. reflexivity. Qed.

Example updateItemCantidad_scenario :
  let r := updateItemCantidad 1 3 example_pedido example_entity_world_later in
  (getTotal <$> match r.1 with Ok p => Some p | Throw _ => None end)
  = Some 175000%float ∧
  heap r.2 0%nat = mkPedidoItem 1 3 50000 150000.
Proof. by vm_compute. Qed.

(** C4 fails on the code: [updateItemCantidad] for a product that the order
    does not have returns before recomputing, so an order built with a
    total that is not the sum of its items keeps that total. *)
Lemma total_not_recomputed_for_absent_producto :
  ∃ p p', (new_Pedido example_props_total_999 example_entity_world).1 = Ok p ∧
          (updateItemCantidad 2 3 p example_entity_world).1 = Ok p' ∧
          getTotal p' = 999%float ∧
          sum_subtotals (heap example_entity_world) (getItems p') = 125000%float.
Proof. by eexists _, _. Qed.

(** C4, as the code has it. Along every sequence of [addItem], [removeItem]
    and [updateItemCantidad] calls, the total equals the sum of the
    subtotals of the current items after each call, when it did before the
    sequence; and it does after any single [addItem], [removeItem], or
    [updateItemCantidad] of a product that the order has, whatever it was
    before. Such an update changes the first line of that product and no
    other item object: that item gets the new quantity and, as its
    subtotal, the product of its unit price and the quantity as the engine
    computes it; the lines are the same, and the new total is the sum over
    the updated items. *)
Theorem total_invariant_item_calls :
  (∀ (ops : list ItemOp) (w : World) (p : Pedido),
     total_ok w p → Forall (λ s, total_ok s.1 s.2) (states_after ops (w, p))) ∧
  (∀ (op : ItemOp) (w : World) (p : Pedido),
     recomputes op (w, p) → total_ok (step op (w, p)).1 (step op (w, p)).2) ∧
  (∀ (productoId' : Z) (cantidad' : number) (w : World) (p : Pedido),
     has_producto w p productoId' →
     ∃ before item after p' w',
       updateItemCantidad productoId' cantidad' p w = (Ok p', w') ∧
       getItems p = before ++ item :: after ∧
       Forall (λ other, productoId (heap w other) ≠ productoId') before ∧
       productoId (heap w item) = productoId' ∧
       heap w' item =
         mkPedidoItem productoId' cantidad' (precioUnitario (heap w item))
                      (precioUnitario (heap w item) * cantidad')%float ∧
       (∀ other, other ≠ item → heap w' other = heap w other) ∧
       getItems p' = getItems p ∧
       getTotal p' = sum_subtotals (heap w') (getItems p')).
Proof.
  split; [| split].
  - intros ops w p Hok. by apply states_after_total_ok.
  - intros op w p. apply step_recomputes.
  - intros pid q w p Hhas.
    destruct (find_producto_Some _ _ _ Hhas) as (item & E & Hin & Hid).
    destruct (find_first _ _ _ _ E) as (before & after & Hitems & Hbefore & _).
    eexists before, item, after, _, _.
    split; [apply (updateItemCantidad_found _ _ _ _ _ E) |].
    wsimpl. unfold heap_update. do 3 (split; [done |]). split; [| split].
    + rewrite decide_True by done. unfold update_item_cantidad. by rewrite Hid.
    + intros other Hne. by rewrite decide_False.
    + done.
Qed.

(** On the order of the scenarios: a sequence of four calls, an update on
    an order whose total was wrong, and the quantity update of the
    specification, from two units to three at 50000 each. *)
Lemma total_invariant_item_calls_witness :
  Forall (λ s, total_ok s.1 s.2)
    (states_after [UpdateItemCantidad 1 3; RemoveItem 3; UpdateItemCantidad 9 4; AddItem 1%nat]
       (example_entity_world_later, example_pedido)) ∧
  (let s := (example_entity_world_later, with_total 999 example_pedido) in
   total_ok (step (UpdateItemCantidad 1 3) s).1 (step (UpdateItemCantidad 1 3) s).2) ∧
  (∃ before item after p' w',
     updateItemCantidad 1 3 example_pedido example_entity_world_later = (Ok p', w') ∧
     getItems example_pedido = before ++ item :: after ∧
     Forall (λ other, productoId (heap example_entity_world_later other) ≠ 1) before ∧
     productoId (heap example_entity_world_later item) = 1 ∧
     heap w' item =
       mkPedidoItem 1 3 (precioUnitario (heap example_entity_world_later item))
                    (precioUnitario (heap example_entity_world_later item) * 3)%float ∧
     (∀ other, other ≠ item → heap w' other = heap example_entity_world_later other) ∧
     getItems p' = getItems example_pedido ∧
     getTotal p' = sum_subtotals (heap w') (getItems p')).
Proof.
  split; [| split].
  - apply (proj1 total_invariant_item_calls). reflexivity.
  - apply (proj1 (proj2 total_invariant_item_calls) (UpdateItemCantidad 1 3)).
    exists 0%nat. split; [by left | reflexivity].
  - apply (proj2 (proj2 total_invariant_item_calls) 1 3%float).
    exists 0%nat. split; [by left | reflexivity].
Defined.

(** The frame of the item operations on an order that lacks the product. *)
Lemma removeItem_absent (productoId' : Z) (p : Pedido) (w : World) :
  ¬ has_producto w p productoId' →
  removeItem productoId' p w =
  (Ok (with_updatedAt (default 0 (head (clock w)))
         (with_total (sum_subtotals (heap w) (getItems p)) p)),
   set_clock tail w).
Proof.
  intros Hno. rewrite removeItem_run. cbn zeta. rewrite (filter_absent _ _ _ Hno).
  by destruct p.
Qed.

(** C9 fails on the code: [removeItem] for a product that the order does
    not have stamps [updatedAt], and recomputes a total that was not the
    sum of the items. *)
Lemma removeItem_absent_touches_updatedAt :
  ∃ p', (removeItem 2 example_pedido example_entity_world_later).1 = Ok p' ∧
        getUpdatedAt example_pedido = 101 ∧ getUpdatedAt p' = 102 ∧
        ∃ p'',
          (removeItem 2 (with_total 999 example_pedido) example_entity_world_later).1
          = Ok p'' ∧
          getTotal p'' = 125000%float.
Proof. eexists. split; [by vm_compute |]. do 2 (split; [done |]). by eexists. Qed.

(** C9, as the code has it. For a product that the order does not have,
    neither call raises an error. [updateItemCantidad] changes nothing: not
    the order, not the items, not the clock. [removeItem] leaves the items
    and every field but [total] and [updatedAt] as they were, sets [total]
    to the sum of the subtotals of the items (so leaves it as it was when
    it was that sum) and stamps [updatedAt] with the clock. *)
Theorem absent_producto_calls (productoId' : Z) (cantidad' : number) (w : World)
    (p : Pedido) :
  ¬ has_producto w p productoId' →
  updateItemCantidad productoId' cantidad' p w = (Ok p, w) ∧
  ∃ p', removeItem productoId' p w = (Ok p', set_clock tail w) ∧
        p' = with_updatedAt (default 0 (head (clock w)))
               (with_total (sum_subtotals (heap w) (getItems p)) p) ∧
        getItems p' = getItems p ∧
        (total_ok w p → getTotal p' = getTotal p) ∧
        getId p' = getId p ∧ getUsuarioId p' = getUsuarioId p ∧
        getEstado p' = getEstado p ∧ getDireccionEnvio p' = getDireccionEnvio p ∧
        getMetodoPago p' = getMetodoPago p ∧
        getReferenciaPago p' = getReferenciaPago p ∧
        getCreatedAt p' = getCreatedAt p.
Proof.
  intros Hno. split; [by apply updateItemCantidad_absent |].
  eexists. split; [by apply removeItem_absent |]. split; [done |].
  split; [done |]. split; [| done]. intros Hok. by rewrite Hok.
Qed.

(** Product 2 is not in the order of the scenarios. *)
Lemma absent_producto_calls_witness :
  let w := example_entity_world_later in
  let p := example_pedido in
  updateItemCantidad 2 5 p w = (Ok p, w) ∧
  ∃ p', removeItem 2 p w = (Ok p', set_clock tail w) ∧
        p' = with_updatedAt (default 0 (head (clock w)))
               (with_total (sum_subtotals (heap w) (getItems p)) p) ∧
        getItems p' = getItems p ∧
        (total_ok w p → getTotal p' = getTotal p) ∧
        getId p' = getId p ∧ getUsuarioId p' = getUsuarioId p ∧
        getEstado p' = getEstado p ∧ getDireccionEnvio p' = getDireccionEnvio p ∧
        getMetodoPago p' = getMetodoPago p ∧
        getReferenciaPago p' = getReferenciaPago p ∧
        getCreatedAt p' = getCreatedAt p.
Proof.
  apply (absent_producto_calls 2 5 example_entity_world_later example_pedido).
  intros (item & Hin & Hid).
  apply list_elem_of_In in Hin. simpl in Hin.
  destruct Hin as [<- | [<- | []]]; discriminate Hid.
Defined.

Lemma apply_op_returns (op : ItemOp) (p : Pedido) (w : World) :
  ∃ p' w', apply_op op p w = (Ok p', w') ∧ step op (w, p) = (w', p').
Proof.
  unfold step. cbn [fst snd].
  destruct op as [item | pid | pid q]; cbn [apply_op].
  - rewrite addItem_run. by eexists _, _.
  - rewrite removeItem_run. by eexists _, _.
  - destruct (List.find (λ item, bool_decide (productoId (heap w item) = pid)) (getItems p))
      as [item |] eqn:E.
    + rewrite (updateItemCantidad_found _ _ _ _ _ E). by eexists _, _.
    + rewrite updateItemCantidad_absent by by apply find_producto_None. by eexists _, _.
Qed.

(** C5 fails on the code: [setTotal] stores any total, and the constructor
    stores the total it is given. *)
Lemma setTotal_breaks_total :
  ∃ p' q,
    total_ok example_entity_world_later example_pedido ∧
    (setTotal 5 example_pedido example_entity_world_later).1 = Ok p' ∧
    getTotal p' = 5%float ∧
    sum_subtotals (heap example_entity_world_later) (getItems p') = 125000%float ∧
    (new_Pedido example_props_total_999 example_entity_world).1 = Ok q ∧
    getTotal q = 999%float ∧
    sum_subtotals (heap example_entity_world) (getItems q) = 125000%float.
Proof. by eexists _, _. Qed.

(** C5, as the code has it. The total is kept equal to the sum of the
    subtotals by every mutator other than [setTotal] (the other setters do
    not touch total or items, the item operations recompute or change
    nothing), and [toEntity] builds the order with it. [setTotal] stores the
    total it is given and the constructor the one of its [props], without
    looking at the items. *)
Theorem total_under_entity_operations :
  (∀ (m : Mutator) (p : Pedido) (w : World),
     is_SetTotal m = false → total_ok w p →
     ∃ p' w', mutate m p w = (Ok p', w') ∧ total_ok w' p') ∧
  (∀ (dto : CreatePedidoDTO) (w : World),
     ∃ p w', toEntity dto w = (Ok p, w') ∧ total_ok w' p) ∧
  (∀ (total : number) (p : Pedido) (w : World),
     ∃ p' w', setTotal total p w = (Ok p', w') ∧
              getTotal p' = total ∧ getItems p' = getItems p ∧ heap w' = heap w) ∧
  (∀ (props : PedidoProps) (w : World),
     ∃ p w', new_Pedido props w = (Ok p, w') ∧
             getTotal p = props_total props ∧
             getItems p = default [] (props_items props) ∧ heap w' = heap w).
Proof.
  split; [| split; [| split]].
  - intros m p w Hm Hok.
    destruct m as [v | v | v | v | v | v | op]; try done;
      try (eexists _, _; split; [reflexivity | exact Hok]).
    destruct (apply_op_returns op p w) as (p' & w' & E & Hstep).
    exists p', w'. split; [done |].
    pose proof (step_total_ok op (w, p) Hok) as H. by rewrite Hstep in H.
  - intros dto w. unfold toEntity, new_Pedido. msimpl. eexists _, _. split; [done |].
    unfold total_ok. cbn. apply reduce_subtotal_sum.
  - intros total p w. by eexists _, _.
  - intros props w. unfold new_Pedido. msimpl.
    destruct (props_createdAt props), (props_updatedAt props); by eexists _, _.
Qed.

(** A setter on the order of the scenarios, and its construction. *)
Lemma total_under_entity_operations_witness :
  (∃ p' w', mutate (SetEstado PAGADO) example_pedido example_entity_world_later = (Ok p', w') ∧
            total_ok w' p') ∧
  (∃ p w', toEntity (example_dto Undefined) example_entity_world = (Ok p, w') ∧
           total_ok w' p).
Proof.
  split.
  - apply (proj1 total_under_entity_operations (SetEstado PAGADO)); reflexivity.
  - apply (proj1 (proj2 total_under_entity_operations)).
Defined.

(** C6 fails on the code: [toEntity] copies the payment reference of the
    request into the new, pending order, and [setReferenciaPago] sets one on
    an order in any state. *)
Lemma toEntity_pending_with_reference :
  ∃ p p',
    (toEntity (example_dto (Present "REF-1")) example_entity_world).1 = Ok p ∧
    getEstado p = PENDIENTE ∧ getReferenciaPago p = Present "REF-1" ∧
    (setReferenciaPago "REF-2" example_pedido example_entity_world_later).1 = Ok p' ∧
    getEstado p' = PENDIENTE ∧ getReferenciaPago p' = Present "REF-2".
Proof. by eexists _, _. Qed.

(** C6, as the code has it. An order that [toEntity] builds is pending and
    has the payment reference of the request as it is: a string, or
    [undefined] or [null] for a request without a payment reference, and
    the order then has none; no mutator of the entity other than
    [setReferenciaPago] changes the reference, and that one sets it in any
    state, leaving the state alone; a settlement that succeeds started from
    a pending order and leaves it stored as paid with the reference that it
    returns. *)
Theorem referenciaPago_lifecycle :
  (∀ (dto : CreatePedidoDTO) (w : World),
     ∃ p w', toEntity dto w = (Ok p, w') ∧
             getEstado p = PENDIENTE ∧
             getReferenciaPago p = dto_referenciaPago dto) ∧
  (∀ (m : Mutator) (p : Pedido) (w : World),
     is_SetReferenciaPago m = false →
     ∃ p' w', mutate m p w = (Ok p', w') ∧ getReferenciaPago p' = getReferenciaPago p) ∧
  (∀ (referenciaPago' : string) (p : Pedido) (w : World),
     ∃ p' w', setReferenciaPago referenciaPago' p w = (Ok p', w') ∧
              getReferenciaPago p' = Present referenciaPago' ∧
              getEstado p' = getEstado p) ∧
  (∀ (id : Z) (paymentInfo : PaymentInfo) (w w' : World) (r : PagoResult),
     procesarPago id paymentInfo w = (Ok r, w') → success r = true →
     stored_estado id w = Some PENDIENTE ∧
     stored_estado id w' = Some PAGADO ∧
     is_Some (referenciaPago r) ∧
     stored_referencia id w' = Some (referenciaPago r)).
Proof.
  split; [| split; [| split]].
  - intros dto w. unfold toEntity, new_Pedido. msimpl. eexists _, _. by split.
  - intros m p w Hm.
    destruct m as [v | v | v | v | v | v | op]; try done; try by eexists _, _.
    destruct op as [item | pid | pid q]; cbn [mutate apply_op].
    + rewrite addItem_run. by eexists _, _.
    + rewrite removeItem_run. by eexists _, _.
    + destruct (List.find (λ item, bool_decide (productoId (heap w item) = pid)) (getItems p))
        as [item |] eqn:E.
      * rewrite (updateItemCantidad_found _ _ _ _ _ E). by eexists _, _.
      * rewrite updateItemCantidad_absent by by apply find_producto_None. by eexists _, _.
  - intros ref p w. by eexists _, _.
  - intros id paymentInfo w w' r Hrun Hsucc.
    destruct (procesarPago_success _ _ _ _ _ Hrun Hsucc)
      as (row & ref & t1 & t2 & Hrow & Hpend & -> & Hp & _).
    unfold stored_estado, stored_referencia.
    rewrite Hrow, Hp, lookup_insert_eq. cbn. by rewrite Hpend.
Qed.

(** The order of the scenarios, built and then settled. *)
Lemma referenciaPago_lifecycle_witness :
  (∃ p w', toEntity (example_dto Undefined) example_entity_world = (Ok p, w') ∧
           getEstado p = PENDIENTE ∧
           getReferenciaPago p = Undefined) ∧
  (let w := example_db PENDIENTE TRANSFERENCIA None [] in
   let w' := (procesarPago 1 (InfoObject (Some "TR-1")) w).2 in
   stored_estado 1 w = Some PENDIENTE ∧
   stored_estado 1 w' = Some PAGADO ∧
   is_Some (referenciaPago (pago_ok "TR-1")) ∧
   stored_referencia 1 w' = Some (referenciaPago (pago_ok "TR-1"))).
Proof.
  split.
  - apply (proj1 referenciaPago_lifecycle (example_dto Undefined)).
  - apply (proj2 (proj2 (proj2 referenciaPago_lifecycle)) 1 (InfoObject (Some "TR-1"))
             (example_db PENDIENTE TRANSFERENCIA None []) _ (pago_ok "TR-1"));
      [by vm_compute | reflexivity].
Defined.

(** * Further properties of the code *)

(** ** The repository: transactions *)

Ltac tsimpl :=
  cbv beta iota zeta delta
    [get_world modify_world mret M_ret mbind M_bind throw logger_error
     try_catch getConnection new_Date random_1000
     beginTransaction commit rollback bind_parameter].

Lemma insert_items_run (pedidoId : Z) (items : list loc) (t : Tables) (w : World) :
  ∃ o fs, insert_items pedidoId items t w = (o, set_faults (λ _, fs) w) ∧
          fault_run (faults w) o fs ∧
          ∀ t', o = Ok t' →
                t' = (t.1, t.2 ++ (row_of_item pedidoId ∘ heap w <$> items)).
Proof.
  revert t w. induction items as [| item items IH]; intros t w.
  - exists (Ok t), (faults w). split; [by destruct w |]. split; [apply fault_run_refl |].
    intros t' [= <-]. cbn. rewrite app_nil_r. by destruct t.
  - cbn [insert_items]. tsimpl.
    destruct (storage_call_cases w) as [[E R] | (e & E & R)]; rewrite E; tsimpl.
    2: { exists (Throw e), (tail (faults w)). split; [done |]. split; [apply R | done]. }
    destruct (IH (t.1, t.2 ++ [row_of_item pedidoId (heap w item)]) (set_faults tail w))
      as (o & fs & -> & Hrun & Hok).
    exists o, fs. split; [done |]. split.
    + eapply fault_run_trans; [apply R | apply Hrun].
    + intros t' ->. rewrite (Hok t' eq_refl). cbn. by rewrite <- app_assoc.
Qed.

Lemma storage_call_quiet (w : World) :
  no_storage_faults w →
  storage_call w = (Ok tt, set_faults tail w) ∧ no_storage_faults (set_faults tail w).
Proof.
  unfold no_storage_faults, storage_call. intros Hq. cbn.
  destruct (faults w) as [| [e |] fs]; cbn.
  - done.
  - by inversion Hq.
  - split; [done |]. by inversion Hq.
Qed.

(** The [catch] of a transaction: whatever [rollback] does, an exception
    leaves and nothing is stored. *)
Lemma rollback_handler_run (line message : string) (w0 w : World) :
  nothing_stored w0 w →
  ∃ e w', (rollback;; logger_error line;; throw message) w = (@Throw unit e, w') ∧
          nothing_stored w0 w'.
Proof.
  intros Hn. tsimpl.
  destruct (storage_call_cases w) as [[E R] | (e & E & R)]; rewrite E; tsimpl;
    eexists _, _; (split; [done |]); apply Hn.
Qed.

Ltac run_call w :=
  let E := fresh "E" in let R := fresh "R" in let e := fresh "e" in
  destruct (storage_call_cases w) as [[E R] | (e & E & R)];
  rewrite E; clear E R; tsimpl.

(** [create] stores the order with all its items, once, or stores nothing;
    when it returns, it has stored them. *)
Lemma create_run (insertId : Z) (pedido : Pedido) (w : World) :
  ∃ o w', create insertId pedido w = (o, w') ∧
          ((nothing_stored w w' ∧ ∃ e, o = Throw e) ∨
           (created insertId pedido w w' ∧ ∀ r, o = Ok r → found insertId (pedidos w') r)).
Proof.
  unfold create. tsimpl.
  run_call w.
  2: { eexists _, _. split; [done |]. left. split; [done | by eexists]. }
  assert (∀ (line message : string) (w1 : World),
            nothing_stored w w1 →
            ∃ o w',
              (let (o0, w'0) :=
                 ((rollback;; logger_error line;; throw message) : M unit) w1 in
               match o0 with
               | Ok _ => findById insertId w'0
               | Throw e => (Throw e, w'0)
               end) = (o, w') ∧
              ((nothing_stored w w' ∧ ∃ e, o = Throw e) ∨
               (created insertId pedido w w' ∧
                ∀ r, o = Ok r → found insertId (pedidos w') r))) as Hfail.
  { intros line message w1 Hn.
    destruct (rollback_handler_run line message w w1 Hn) as (e & w' & -> & Hn').
    eexists _, _. split; [done |]. left. split; [done | by eexists]. }
  run_call (set_faults tail w).
  2: { by apply Hfail. }
  wsimpl.
  destruct (getReferenciaPago pedido) as [| | referencia]; tsimpl;
    [by apply Hfail | ..];
    (run_call (set_clock tail (set_clock tail (set_faults tail (set_faults tail w))));
       [| by apply Hfail];
     match goal with |- context [insert_items insertId ?items ?t ?w0] =>
       destruct (insert_items_run insertId items t w0) as (o & fs & -> & _ & Hok) end;
     destruct o as [t | e]; tsimpl; [| by apply Hfail];
     rewrite (Hok t eq_refl); cbn [fst snd];
     match goal with |- context [storage_call ?w0] => run_call w0 end;
       [| by apply Hfail];
     match goal with |- context [findById insertId ?w0] =>
       destruct (findById_run insertId w0) as (o & w' & -> & _ & [Rp Ri Rh _ _ _] & Hfound)
     end;
     exists o, w'; (split; [done |]); right; split;
       [unfold created; by rewrite Rp, Ri, Rh | intros r ->; rewrite Rp; by apply Hfound]).
Qed.


(** ** The repository: reading an order *)

Lemma alloc_all_spec (l : list PedidoItem) (w : World) :
  ∃ h, alloc_all l w =
         (Ok (seq (next_loc w) (length l)),
          set_next_loc (λ _, (next_loc w + length l)%nat) (set_heap (λ _, h) w)) ∧
       h <$> seq (next_loc w) (length l) = l ∧
       ∀ l0, (l0 < next_loc w)%nat → h l0 = heap w l0.
Proof.
  revert w. induction l as [| i l IH]; intros w.
  - exists (heap w). split; [| done]. cbn. rewrite Nat.add_0_r. by destruct w.
  - cbn [alloc_all]. unfold mbind, M_bind, alloc at 1.
    destruct (IH (set_next_loc S
                    (set_heap (λ h l0, if decide (l0 = next_loc w) then i else h l0) w)))
      as (h & -> & Hvals & Hold).
    cbn [next_loc set_next_loc set_heap heap] in *.
    exists h. split; [| split].
    + cbn [length].
      replace (next_loc w + S (length l))%nat with (S (next_loc w) + length l)%nat by lia.
      reflexivity.
    + cbn. f_equal; [| done]. rewrite Hold by lia. by rewrite decide_True.
    + intros l0 Hl0. rewrite Hold by lia. rewrite decide_False; [done | lia].
Qed.

Lemma mapToEntity_quiet (id : Z) (row : PedidoRow) (w : World) :
  no_storage_faults w →
  ∃ p w', mapToEntity id row w = (Ok p, w') ∧
          only_reads w w' ∧ no_storage_faults w' ∧ log w' = log w ∧
          objects_kept w w' ∧ loaded id row w w' p.
Proof.
  intros Hq. unfold mapToEntity. tsimpl.
  destruct (storage_call_quiet w Hq) as [-> Hq1]. tsimpl.
  destruct (storage_call_quiet _ Hq1) as [-> Hq2]. tsimpl.
  match goal with |- context [alloc_all ?l ?w0] =>
    destruct (alloc_all_spec l w0) as (h & -> & Hvals & Hold) end.
  unfold new_Pedido. tsimpl. wsimpl.
  eexists _, _. split; [done |]. split; [by split |]. split; [done |]. split; [done |].
  split; [split; [cbn; lia | done] |].
  split; [by split |]. cbn [getItems heap set_next_loc set_heap next_loc].
  split; [done |].
  apply Forall_forall. intros l0 Hin. apply elem_of_seq in Hin. lia.
Qed.

Lemma findById_quiet (id : Z) (w : World) :
  no_storage_faults w →
  ∃ r w', findById id w = (Ok r, w') ∧
          only_reads w w' ∧ no_storage_faults w' ∧ log w' = log w ∧
          objects_kept w w' ∧
          match pedidos w !! id with
          | None => r = None
          | Some row => ∃ p, r = Some p ∧ loaded id row w w' p
          end.
Proof.
  intros Hq. unfold findById. tsimpl.
  destruct (storage_call_quiet w Hq) as [-> Hq1]. tsimpl.
  destruct (storage_call_quiet _ Hq1) as [-> Hq2]. tsimpl. wsimpl.
  destruct (pedidos w !! id) as [row |] eqn:Hrow.
  2: { eexists _, _. split; [done |]. split; [by split |]. split; [done |].
       split; [done |]. split; [by split |]. done. }
  destruct (mapToEntity_quiet id row _ Hq2) as (p & w' & -> & [] & Hq' & Hlog & Hkept & Hl).
  tsimpl. wsimpl.
  exists (Some p), w'. split; [done |]. split; [by split |]. split; [done |].
  split; [done |]. split; [done |]. by exists p.
Qed.





(** [delete] removes the order and its items, once, or stores nothing; when
    it returns, it has removed them. *)
Lemma delete_pedido_run (id : Z) (w : World) :
  ∃ o w', delete_pedido id w = (o, w') ∧
          ((nothing_stored w w' ∧ ∃ e, o = Throw e) ∨ (deleted id w w' ∧ o = Ok tt)).
Proof.
  unfold delete_pedido. tsimpl.
  run_call w.
  2: { eexists _, _. split; [done |]. left. split; [done | by eexists]. }
  assert (∀ (line message : string) (w1 : World),
            nothing_stored w w1 →
            ∃ o w',
              ((rollback;; logger_error line;; throw message) : M unit) w1 = (o, w') ∧
              ((nothing_stored w w' ∧ ∃ e, o = Throw e) ∨ (deleted id w w' ∧ o = Ok tt)))
    as Hfail.
  { intros line message w1 Hn.
    destruct (rollback_handler_run line message w w1 Hn) as (e & w' & -> & Hn').
    eexists _, _. split; [done |]. left. split; [done | by eexists]. }
  run_call (set_faults tail w).
  2: { by apply Hfail. }
  run_call (set_faults tail (set_faults tail w)).
  2: { by apply Hfail. }
  run_call (set_faults tail (set_faults tail (set_faults tail w))).
  2: { by apply Hfail. }
  match goal with |- context [storage_call ?w0] => run_call w0 end.
  2: { by apply Hfail. }
  eexists _, _. split; [done |]. right. by split.
Qed.

Lemma delete_pedido_quiet (id : Z) (w : World) :
  no_storage_faults w →
  ∃ w', delete_pedido id w = (Ok tt, w') ∧ deleted id w w' ∧
        no_storage_faults w' ∧ log w' = log w ∧ heap w' = heap w ∧
        next_loc w' = next_loc w.
Proof.
  intros Hq. unfold delete_pedido. tsimpl.
  destruct (storage_call_quiet w Hq) as [-> Hq1]. tsimpl.
  destruct (storage_call_quiet _ Hq1) as [-> Hq2]. tsimpl.
  destruct (storage_call_quiet _ Hq2) as [-> Hq3]. tsimpl.
  destruct (storage_call_quiet _ Hq3) as [-> Hq4]. tsimpl.
  match goal with |- context [storage_call ?w0] =>
    assert (no_storage_faults w0) as Hq5 by exact Hq4;
    destruct (storage_call_quiet w0 Hq5) as [-> Hq6] end.
  tsimpl. eexists. split; [done |]. by repeat split.
Qed.

(** ** The service: creating, reading and deleting an order *)

(** X1. Whatever the storage does, [createPedido] stores the order together
    with all of its items, in one step of the history, or stores nothing
    and throws: no state with the order and only some of its items is ever
    stored. When it returns, the order is stored and the value returned is
    the order read back. (It can also throw after having stored the order,
    when reading it back fails.) *)
Theorem createPedido_all_or_nothing (insertId : Z) (pedido : Pedido) (w : World) :
  ∃ o w', createPedido insertId pedido w = (o, w') ∧
          ((nothing_stored w w' ∧ ∃ e, o = Throw e) ∨
           (created insertId pedido w w' ∧
            ∀ r, o = Ok r → found insertId (pedidos w') r)).
Proof.
  unfold createPedido. tsimpl.
  destruct (create_run insertId pedido w) as (o & w' & -> & H).
  destruct o as [r | e]; tsimpl.
  - by eexists _, _.
  - eexists _, _. split; [done |].
    destruct H as [[Hn _] | [Hc _]]; [left | right]; wsimpl.
    + split; [done | by eexists].
    + by split.
Qed.

(** The order is stored although [createPedido] throws: the storage fails
    on the read that follows the commit. *)
Example createPedido_throws_after_commit :
  let w := example_world ∅ [] (replicate 6 None ++ [Some "ECONNRESET"]) [100; 101] []
             declined in
  let r := createPedido 1 (with_referenciaPago Null (with_items [] example_pedido)) w in
  r.1 = Throw "ECONNRESET" ∧ stored_estado 1 r.2 = Some PENDIENTE.
Proof. by vm_compute. Qed.



(** X3. Whatever the storage does, [deletePedido] removes the order and
    every one of its items, in one step of the history, and returns, or
    stores nothing and throws. *)
Theorem deletePedido_all_or_nothing (id : Z) (w : World) :
  ∃ o w', deletePedido id w = (o, w') ∧
          ((nothing_stored w w' ∧ ∃ e, o = Throw e) ∨ (deleted id w w' ∧ o = Ok tt)).
Proof.
  unfold deletePedido. tsimpl.
  destruct (delete_pedido_run id w) as (o & w' & -> & H).
  destruct o as [r | e]; tsimpl.
  - by eexists _, _.
  - eexists _, _. split; [done |].
    destruct H as [[Hn _] | [_ ?]]; [| done]. left. wsimpl. split; [done | by eexists].
Qed.

(** X4. When the storage does not fail, after [deletePedido] the order is
    not found any more, no item row of it is left, and every other order
    and the item rows of the other orders are as they were, in the same
    order; deleting an order that is not stored changes neither table. *)
Theorem deletePedido_removes (id : Z) (w : World) :
  no_storage_faults w →
  ∃ w', deletePedido id w = (Ok tt, w') ∧
        (getPedidoById id w').1 = Ok None ∧
        pedidos w' !! id = None ∧
        (∀ j, j ≠ id → pedidos w' !! j = pedidos w !! j) ∧
        Forall (λ r, pedido_id r ≠ id) (pedido_items w') ∧
        (∀ j, j ≠ id →
              filter (λ r, pedido_id r = j) (pedido_items w')
              = filter (λ r, pedido_id r = j) (pedido_items w)) ∧
        (pedidos w !! id = None → Forall (λ r, pedido_id r ≠ id) (pedido_items w) →
         pedidos w' = pedidos w ∧ pedido_items w' = pedido_items w).
Proof.
  intros Hq. unfold deletePedido. tsimpl.
  destruct (delete_pedido_quiet id w Hq) as (w' & -> & (Hp & Hi & _) & Hq' & _).
  exists w'. split; [done |]. split; [| split; [| split; [| split; [| split]]]].
  - unfold getPedidoById. tsimpl.
    destruct (findById_quiet id w' Hq') as (r & w'' & -> & _ & _ & _ & _ & Hfound).
    rewrite Hp, lookup_delete_eq in Hfound. by subst r.
  - rewrite Hp. apply lookup_delete_eq.
  - intros j Hj. rewrite Hp. by apply lookup_delete_ne.
  - rewrite Hi. apply Forall_forall. intros r Hr. by apply list_elem_of_filter in Hr as [? _].
  - intros j Hj. rewrite Hi. rewrite list_filter_filter. apply list_filter_iff.
    intros r. split; [by intros [? _] |]. intros Hr. split; [done | congruence].
  - intros Hnone Hitems. split.
    + rewrite Hp. by apply delete_id.
    + rewrite Hi. clear Hi. induction Hitems as [| r rows Hr _ IH]; [done |].
      rewrite filter_cons, decide_True by done. by rewrite IH.
Qed.

Lemma deletePedido_removes_witness :
  let w := example_db PAGADO STRIPE (Some "stripe_1_2") [] in
  ∃ w', deletePedido 1 w = (Ok tt, w') ∧
        (getPedidoById 1 w').1 = Ok None ∧
        pedidos w' !! 1 = None ∧
        (∀ j, j ≠ 1 → pedidos w' !! j = pedidos w !! j) ∧
        Forall (λ r, pedido_id r ≠ 1) (pedido_items w') ∧
        (∀ j, j ≠ 1 →
              filter (λ r, pedido_id r = j) (pedido_items w')
              = filter (λ r, pedido_id r = j) (pedido_items w)) ∧
        (pedidos w !! 1 = None → Forall (λ r, pedido_id r ≠ 1) (pedido_items w) →
         pedidos w' = pedidos w ∧ pedido_items w' = pedido_items w).
Proof.
  apply (deletePedido_removes 1 (example_db PAGADO STRIPE (Some "stripe_1_2") [])).
  constructor.
Defined.

(** X5. [getPedidoById] never writes: whatever the storage does, the
    tables and their history are as they were, and it throws only what the
    storage raised. When the storage does not fail it returns [null] for a
    key that is not stored, and otherwise the order of that row with the
    item rows of the order, in table order, as item objects that did not
    exist before; the objects that existed are untouched. *)
Theorem getPedidoById_reads :
  (∀ (id : Z) (w : World),
     ∃ o w', getPedidoById id w = (o, w') ∧ storage_run w o w' ∧
             nothing_stored w w') ∧
  (∀ (id : Z) (w : World),
     no_storage_faults w →
     ∃ r w', getPedidoById id w = (Ok r, w') ∧ objects_kept w w' ∧
             match pedidos w !! id with
             | None => r = None
             | Some row => ∃ p, r = Some p ∧ loaded id row w w' p
             end).
Proof.
  split.
  - intros id w. unfold getPedidoById. tsimpl.
    destruct (findById_run id w) as (o & w' & -> & Hrun & [] & _).
    destruct o as [r | e]; tsimpl; eexists _, _; (split; [done |]); by split.
  - intros id w Hq. unfold getPedidoById. tsimpl.
    destruct (findById_quiet id w Hq) as (r & w' & -> & _ & _ & _ & Hkept & Hfound).
    by exists r, w'.
Qed.

Lemma getPedidoById_reads_witness :
  let w := example_db PENDIENTE TRANSFERENCIA None [] in
  ∃ r w', getPedidoById 1 w = (Ok r, w') ∧ objects_kept w w' ∧
          ∃ p, r = Some p ∧ loaded 1 (example_row PENDIENTE TRANSFERENCIA None) w w' p.
Proof.
  apply (proj2 getPedidoById_reads 1 (example_db PENDIENTE TRANSFERENCIA None [])).
  constructor.
Defined.

(** ** The service: every outcome of a settlement *)

(** Which methods give a reference, and when the payload matters. *)
Lemma referencia_de_pago_cases (metodoPago : string) (paymentInfo : PaymentInfo) (w : World) :
  match (referencia_de_pago metodoPago paymentInfo w).1 with
  | Ok (Some _) =>
      metodoPago = STRIPE ∨ metodoPago = PAYPAL ∨
      (metodoPago = TRANSFERENCIA ∧ paymentInfo ≠ InfoUndefined ∧ paymentInfo ≠ InfoNull)
  | Ok None =>
      metodoPago ≠ STRIPE ∧ metodoPago ≠ PAYPAL ∧ metodoPago ≠ TRANSFERENCIA
  | Throw e =>
      metodoPago = TRANSFERENCIA ∧
      ((paymentInfo = InfoUndefined ∧
        e = "Cannot read properties of undefined (reading 'referencia')") ∨
       (paymentInfo = InfoNull ∧
        e = "Cannot read properties of null (reading 'referencia')"))
  end.
Proof.
  unfold referencia_de_pago.
  destruct (decide (metodoPago = STRIPE)); [by left |].
  destruct (decide (metodoPago = PAYPAL)); [by right; left |].
  destruct (decide (metodoPago = TRANSFERENCIA)); [| done].
  destruct paymentInfo as [| | | [s |]].
  - split; [done |]. by left.
  - split; [done |]. by right.
  - right; right; done.
  - destruct (decide (s = "")); right; right; done.
  - right; right; done.
Qed.

Lemma procesarPago_quiet (id : Z) (paymentInfo : PaymentInfo) (w : World) :
  no_storage_faults w →
  ∃ r w', procesarPago id paymentInfo w = (Ok r, w') ∧
          pedido_items w' = pedido_items w ∧
          match pedidos w !! id with
          | None => r = pago_error (NOT_FOUND id) ∧ nothing_stored w w'
          | Some row =>
              if decide (row_estado row = PENDIENTE) then
                match (referencia_de_pago (metodo_pago row) paymentInfo w).1 with
                | Ok (Some referenciaPago') =>
                    r = pago_ok referenciaPago' ∧
                    ∃ t1 t2,
                      pedidos w' =
                        <[id := row_with_estado PAGADO t2
                                  (row_with_referencia_pago referenciaPago' t1 row)]>
                          (pedidos w)
                | Ok None => r = pago_error UNSUPPORTED ∧ nothing_stored w w'
                | Throw e => r = pago_error e ∧ nothing_stored w w'
                end
              else r = pago_error NOT_PENDING ∧ nothing_stored w w'
          end.
Proof.
  intros Hq. rewrite procesarPago_unfold.
  destruct (pedidos w !! id) as [row |] eqn:Hrow.
  2: { destruct (procesarPago_try_rejects id paymentInfo w) as (o & w1 & -> & Hrun & [] & Hr).
       { intros row. by rewrite Hrow. }
       destruct (storage_run_quiet _ _ _ Hrun Hq) as [[r ->] _].
       rewrite Hrow in Hr. exists r, w1. by rewrite (Hr r eq_refl). }
  destruct (decide (row_estado row = PENDIENTE)) as [Hpend | Hpend].
  2: { destruct (procesarPago_try_rejects id paymentInfo w) as (o & w1 & -> & Hrun & [] & Hr).
       { intros row' Hrow'. congruence. }
       destruct (storage_run_quiet _ _ _ Hrun Hq) as [[r ->] _].
       rewrite Hrow in Hr. exists r, w1. by rewrite (Hr r eq_refl). }
  destruct (procesarPago_try_pending id paymentInfo w row Hrow Hpend)
    as (o & w1 & -> & Hitems & _ & Hcases).
  destruct (referencia_de_pago _ _ _).1 as [[ref |] | e].
  - destruct Hcases as [Hrun Hok].
    destruct (storage_run_quiet _ _ _ Hrun Hq) as [[r ->] _].
    destruct (Hok r eq_refl) as (-> & t1 & t2 & Hp & _).
    eexists _, _. split; [done |]. split; [done |]. split; [done |].
    exists t1, t2. rewrite Hp. rewrite (alter_found _ _ _ _ Hrow).
    rewrite (alter_found _ id _ (row_with_referencia_pago ref t1 row))
      by apply lookup_insert_eq.
    by rewrite insert_insert_eq.
  - destruct Hcases as (Hp & Hs & Hrun & Hr).
    destruct (storage_run_quiet _ _ _ Hrun Hq) as [[r ->] _].
    exists r, w1. by rewrite (Hr r eq_refl).
  - destruct Hcases as (Hp & Hs & [[-> _] | [[e' ->] Hrun]]).
    + eexists _, _. split; [done |]. wsimpl. by repeat split.
    + by destruct (storage_run_quiet _ _ _ Hrun Hq) as [[r ?] _].
Qed.

(** X6. When the storage does not fail, [procesarPago] succeeds exactly when
    the order is stored, is pending, and its method is [stripe], [paypal],
    or [transferencia] with a payload that is not [undefined] or [null].
    Every failure stores nothing and carries no reference, and its error
    tells the cause: the order is not found, is not pending, has a method
    that is not supported, or the payload could not be read, with the
    message of the [TypeError] for [undefined] or for [null]. *)
Theorem procesarPago_decides (id : Z) (paymentInfo : PaymentInfo) (w : World) :
  no_storage_faults w →
  ∃ r w', procesarPago id paymentInfo w = (Ok r, w') ∧
          (success r = true ↔
           ∃ row, pedidos w !! id = Some row ∧ row_estado row = PENDIENTE ∧
                  (metodo_pago row = STRIPE ∨ metodo_pago row = PAYPAL ∨
                   (metodo_pago row = TRANSFERENCIA ∧
                    paymentInfo ≠ InfoUndefined ∧ paymentInfo ≠ InfoNull))) ∧
          (success r = false → nothing_stored w w' ∧ referenciaPago r = None) ∧
          (pedidos w !! id = None →
           success r = false ∧
           error r = Some ("Pedido con ID " +:+ pretty id +:+ " no encontrado")) ∧
          (∀ row, pedidos w !! id = Some row →
                  (row_estado row ≠ PENDIENTE →
                   success r = false ∧
                   error r = Some "El pedido no está en estado pendiente") ∧
                  (row_estado row = PENDIENTE →
                   (metodo_pago row ≠ STRIPE → metodo_pago row ≠ PAYPAL →
                    metodo_pago row ≠ TRANSFERENCIA →
                    success r = false ∧ error r = Some "Método de pago no soportado") ∧
                   (metodo_pago row = TRANSFERENCIA → paymentInfo = InfoUndefined →
                    success r = false ∧
                    error r
                    = Some "Cannot read properties of undefined (reading 'referencia')") ∧
                   (metodo_pago row = TRANSFERENCIA → paymentInfo = InfoNull →
                    success r = false ∧
                    error r
                    = Some "Cannot read properties of null (reading 'referencia')"))).
Proof.
  intros Hq.
  destruct (procesarPago_quiet id paymentInfo w Hq) as (r & w' & E & _ & H).
  exists r, w'. split; [done |].
  destruct (pedidos w !! id) as [row |] eqn:Hrow.
  2: { destruct H as [-> Hn]. split; [| split; [| split]]; [| done | done | done].
       split; [done |]. by intros (row & ? & _). }
  destruct (decide (row_estado row = PENDIENTE)) as [Hpend | Hpend].
  2: { destruct H as [-> Hn]. split; [| split; [| split]]; [| done | done |].
       - split; [done |]. intros (row' & ? & ? & _). congruence.
       - intros row' [= <-]. by split. }
  pose proof (referencia_de_pago_cases (metodo_pago row) paymentInfo w) as Hm.
  destruct (referencia_de_pago _ _ _).1 as [[ref |] | e].
  - destruct H as [-> _]. split; [| split; [| split]]; [| done | done |].
    + split; [| done]. intros _. by exists row.
    + intros row' [= <-]. split; [done |]. intros _. split; [| split].
      * intros H1 H2 H3. by destruct Hm as [? | [? | [? _]]].
      * intros H1 H2. by destruct Hm as [H | [H | (_ & H & _)]]; [rewrite H1 in H.. |].
      * intros H1 H2. by destruct Hm as [H | [H | (_ & _ & H)]]; [rewrite H1 in H.. |].
  - destruct H as [-> Hn]. destruct Hm as (H1 & H2 & H3).
    split; [| split; [| split]]; [| done | done |].
    + split; [done |]. intros (row' & [= <-] & _ & [? | [? | [? _]]]); done.
    + intros row' [= <-]. split; [done |]. intros _. by split.
  - destruct H as [-> Hn]. destruct Hm as (H1 & Hm).
    split; [| split; [| split]]; [| done | done |].
    + split; [done |].
      intros (row' & [= <-] & _ & [H | [H | (_ & Hu & Hn')]]); [by rewrite H1 in H.. |].
      by destruct Hm as [[? _] | [? _]].
    + intros row' [= <-]. split; [done |]. intros _. split; [| split].
      * by intros _ _ ?.
      * intros _ ->. by destruct Hm as [[_ ->] | [? _]].
      * intros _ ->. by destruct Hm as [[? _] | [_ ->]].
Qed.

(** A pending order with a method that is not supported, and one paid by
    transfer with [null] as payload. *)
Lemma procesarPago_decides_witness :
  (let w := example_db PENDIENTE "efectivo" None [] in
   ∃ r w', procesarPago 1 (InfoObject None) w = (Ok r, w') ∧
           success r = false ∧ nothing_stored w w' ∧ referenciaPago r = None ∧
           error r = Some "Método de pago no soportado") ∧
  (let w := example_db PENDIENTE TRANSFERENCIA None [] in
   ∃ r w', procesarPago 1 InfoNull w = (Ok r, w') ∧
           success r = false ∧ nothing_stored w w' ∧
           error r = Some "Cannot read properties of null (reading 'referencia')").
Proof.
  cbv zeta. split.
  - destruct (procesarPago_decides 1 (InfoObject None)
                (example_db PENDIENTE "efectivo" None []))
      as (r & w' & E & _ & Hfail & _ & Hrow); [constructor |].
    destruct (Hrow (example_row PENDIENTE "efectivo" None)) as [_ Hpend]; [by vm_compute |].
    destruct (Hpend eq_refl) as [Hun _].
    destruct Hun as [Hs He]; [done.. |].
    destruct (Hfail Hs) as [Hn Hr].
    by exists r, w'.
  - destruct (procesarPago_decides 1 InfoNull
                (example_db PENDIENTE TRANSFERENCIA None []))
      as (r & w' & E & _ & Hfail & _ & Hrow); [constructor |].
    destruct (Hrow (example_row PENDIENTE TRANSFERENCIA None)) as [_ Hpend];
      [by vm_compute |].
    destruct (Hpend eq_refl) as (_ & _ & Hnull).
    destruct (Hnull eq_refl eq_refl) as [Hs He].
    destruct (Hfail Hs) as [Hn _].
    by exists r, w'.
Defined.

(** ** The service: what a settlement leaves alone *)

Lemma only_order_refl (id : Z) (w : World) : only_order id w w.
Proof. by split. Qed.

Lemma only_order_trans (id : Z) (w1 w2 w3 : World) :
  only_order id w1 w2 → only_order id w2 w3 → only_order id w1 w3.
Proof.
  intros [Hi1 Hp1] [Hi2 Hp2]. split; [congruence |].
  intros j Hj. by rewrite Hp2, Hp1.
Qed.

Lemma only_reads_only_order (id : Z) (w w' : World) :
  only_reads w w' → only_order id w w'.
Proof. intros [Rp Ri _ _ _ _]. split; [done |]. intros j _. by rewrite Rp. Qed.

Lemma updateReferenciaPago_only_order (id : Z) (referenciaPago' : string) (w : World) :
  only_order id w (updateReferenciaPago id referenciaPago' w).2.
Proof.
  unfold updateReferenciaPago. tsimpl.
  run_call w; [| by split].
  run_call (set_clock tail (set_faults tail w)); [| by split].
  match goal with |- context [findById id ?w0] =>
    destruct (findById_run id w0) as (o & w' & -> & _ & Hreads & _) end.
  eapply only_order_trans; [| apply only_reads_only_order, Hreads].
  split; [done |]. intros j Hj. wsimpl. by apply lookup_alter_ne.
Qed.

Lemma updateEstado_only_order (id : Z) (estado : EstadoPedido) (w : World) :
  only_order id w (updateEstado id estado w).2.
Proof.
  unfold updateEstado. tsimpl.
  run_call w; [| by split].
  run_call (set_clock tail (set_faults tail w)); [| by split].
  match goal with |- context [findById id ?w0] =>
    destruct (findById_run id w0) as (o & w' & -> & _ & Hreads & _) end.
  eapply only_order_trans; [| apply only_reads_only_order, Hreads].
  split; [done |]. intros j Hj. wsimpl. by apply lookup_alter_ne.
Qed.

(** X7. Whatever the storage does and however the call ends, [procesarPago]
    of an order changes no other order and no item row, and
    [updateEstadoPedido] likewise. *)
Theorem procesarPago_only_order (id : Z) :
  (∀ (paymentInfo : PaymentInfo) (w : World),
     only_order id w (procesarPago id paymentInfo w).2) ∧
  (∀ (estado : EstadoPedido) (w : World),
     only_order id w (updateEstadoPedido id estado w).2).
Proof.
  split.
  - intros paymentInfo w. rewrite procesarPago_unfold.
    assert (only_order id w (procesarPago_try id paymentInfo w).2) as H.
    { unfold procesarPago_try. tsimpl.
      destruct (findById_run id w) as (o & w1 & -> & _ & Hreads & _).
      apply (only_reads_only_order id) in Hreads.
      destruct o as [[p |] | e]; [| done | done].
      case_decide; [done |].
      pose proof (referencia_de_pago_frame (getMetodoPago p) paymentInfo w1)
        as (_ & Hp2 & Hi2 & _).
      destruct (referencia_de_pago (getMetodoPago p) paymentInfo w1) as [o2 w2].
      cbn [fst snd] in *.
      assert (only_order id w w2) as H2.
      { eapply only_order_trans; [apply Hreads |]. split; [done |].
        intros j _. by rewrite Hp2. }
      destruct o2 as [[ref |] | e]; [| done | done].
      pose proof (updateReferenciaPago_only_order id ref w2) as H3.
      destruct (updateReferenciaPago id ref w2) as [o3 w3]. cbn [fst snd] in *.
      assert (only_order id w w3) as H3' by (eapply only_order_trans; eauto).
      destruct o3 as [r3 | e]; [| done].
      pose proof (updateEstado_only_order id PAGADO w3) as H4.
      destruct (updateEstado id PAGADO w3) as [o4 w4]. cbn [fst snd] in *.
      assert (only_order id w w4) as H4' by (eapply only_order_trans; eauto).
      by destruct o4. }
    destruct (procesarPago_try id paymentInfo w) as [[r | e] w']; [done |].
    destruct H as [Hi Hp]. by split.
  - intros estado w. unfold updateEstadoPedido. tsimpl.
    pose proof (updateEstado_only_order id estado w) as H.
    destruct (updateEstado id estado w) as [[r | e] w']; [done |].
    destruct H as [Hi Hp]. by split.
Qed.

(** ** The service: an order that is not stored *)

Lemma alter_absent {A : Type} (f : A → A) (id : Z) (t : gmap Z A) :
  t !! id = None → alter f id t = t.
Proof.
  intros H. apply map_eq. intros j. destruct (decide (j = id)) as [-> | Hj].
  - by rewrite lookup_alter_eq, H.
  - by rewrite lookup_alter_ne.
Qed.

Lemma updateEstado_absent (id : Z) (estado : EstadoPedido) (w : World) :
  pedidos w !! id = None → pedidos (updateEstado id estado w).2 = pedidos w.
Proof.
  intros Hrow. unfold updateEstado. tsimpl.
  run_call w; [| done].
  run_call (set_clock tail (set_faults tail w)); [| done].
  match goal with |- context [findById id ?w0] =>
    destruct (findById_run id w0) as (o & w' & -> & _ & [Rp _ _ _ _ _] & _) end.
  wsimpl. rewrite alter_absent in Rp by done. by destruct o.
Qed.

(** X8. Changing the state of an order that is not stored is not an error
    of its own: [updateEstadoPedido] returns [null] unless the storage
    raised, and in either case both tables are as they were. *)
Theorem updateEstadoPedido_absent (id : Z) (estado : EstadoPedido) (w : World) :
  pedidos w !! id = None →
  ∃ o w', updateEstadoPedido id estado w = (o, w') ∧
          storage_run w o w' ∧
          pedidos w' = pedidos w ∧ pedido_items w' = pedido_items w ∧
          ∀ r, o = Ok r → r = None.
Proof.
  intros Hrow. unfold updateEstadoPedido. tsimpl.
  pose proof (updateEstado_absent id estado w Hrow) as Hp.
  destruct (updateEstado_run id estado w) as (o & w1 & E & Hrun & Hitems & _ & _ & Hok).
  rewrite E in *. cbn [snd] in Hp.
  destruct o as [r | e]; tsimpl.
  - exists (Ok r), w1. split; [done |]. split; [done |]. split; [done |]. split; [done |].
    intros r' [= <-]. destruct (Hok r eq_refl) as (_ & _ & _ & Hfound).
    unfold found in Hfound. by rewrite Hp, Hrow in Hfound.
  - eexists _, _. split; [done |]. by wsimpl.
Qed.

(** Order 7 of a table that holds order 1 only. *)
Lemma updateEstadoPedido_absent_witness :
  let w := example_db PENDIENTE STRIPE None [] in
  ∃ w', updateEstadoPedido 7 ENVIADO w = (Ok None, w') ∧
        pedidos w' = pedidos w ∧ pedido_items w' = pedido_items w.
Proof.
  cbv zeta.
  destruct (updateEstadoPedido_absent 7 ENVIADO (example_db PENDIENTE STRIPE None []))
    as (o & w' & E & Hrun & Hp & Hi & Hnone); [by vm_compute |].
  destruct (storage_run_quiet _ _ _ Hrun) as [[r ->] _]; [constructor |].
  rewrite (Hnone r eq_refl) in E. by exists w'.
Defined.

(** ** [StripeService.confirmPayment] *)

(** X9. [confirmPayment] never throws and never touches the orders. It
    reports success exactly when Stripe answers that the intent has
    succeeded, at once or after the confirmation that is asked for when the
    intent requires a payment method or a confirmation; a success carries
    the status [succeeded] and no error, every failure carries an error.
    Stripe is asked once for the intent, and once more to confirm it in
    exactly those two statuses. *)
Theorem confirmPayment_result (paymentIntentId : string) (w : World) :
  let retrieved := stripe_retrieve w paymentIntentId in
  let to_confirm := retrieved = Ok "requires_payment_method" ∨
                    retrieved = Ok "requires_confirmation" in
  ∃ r w', confirmPayment paymentIntentId w = (Ok r, w') ∧
          (confirm_success r = true ↔
           retrieved = Ok "succeeded" ∨
           (to_confirm ∧ stripe_confirm w paymentIntentId = Ok "succeeded")) ∧
          (confirm_success r = true → confirm_status r = "succeeded" ∧ confirm_error r = None) ∧
          (confirm_success r = false → ∃ e, confirm_error r = Some e) ∧
          (to_confirm →
           gateway_calls w' = PaymentIntentsConfirm paymentIntentId
                              :: PaymentIntentsRetrieve paymentIntentId :: gateway_calls w) ∧
          (¬ to_confirm →
           gateway_calls w' = PaymentIntentsRetrieve paymentIntentId :: gateway_calls w) ∧
          nothing_stored w w'.
Proof.
  cbv zeta. unfold confirmPayment, paymentIntents_retrieve, paymentIntents_confirm. tsimpl.
  destruct (stripe_retrieve w paymentIntentId) as [status | e] eqn:Hret; tsimpl.
  2: { eexists _, _. split; [done |]. wsimpl.
       split; [split; [done | by intros [? | [[? | ?] _]]] |].
       split; [done |]. split; [by eexists |]. split; [by intros [? | ?] |]. done. }
  destruct (decide (status = "succeeded")) as [-> | Hs]; tsimpl.
  { eexists _, _. split; [done |]. wsimpl.
    split; [split; [by left | done] |]. split; [done |]. split; [done |].
    split; [by intros [? | ?] |]. done. }
  case_decide as Hc; tsimpl.
  2: { eexists _, _. split; [done |]. wsimpl.
       split; [split; [done | intros [? | [[? | ?] _]]; naive_solver] |].
       split; [done |]. split; [by eexists |]. split; [| done].
       intros [? | ?]; naive_solver. }
  assert (Ok (A := string) status = Ok "requires_payment_method" ∨
          Ok (A := string) status = Ok "requires_confirmation") as Hc'
    by (destruct Hc as [-> | ->]; [by left | by right]).
  wsimpl.
  destruct (stripe_confirm w paymentIntentId) as [status' | e] eqn:Hconf; tsimpl.
  2: { eexists _, _. split; [done |]. wsimpl.
       split; [split; [done | intros [? | [_ ?]]; naive_solver] |].
       split; [done |]. split; [by eexists |]. done. }
  eexists _, _. split; [done |]. wsimpl.
  destruct (decide (status' = "succeeded")) as [-> | Hs'].
  - split; [split; [by right | done] |]. done.
  - rewrite bool_decide_false by done.
    split; [split; [done | intros [? | [_ ?]]; naive_solver] |].
    split; [done |]. split; [| done]. case_decide; [by eexists | done].
Qed.

(** ** From the request to the paid order *)




(** ** The service: settling an order that was made pending again *)

(** X22. The check that an order is pending is the only thing that keeps
    [procesarPago] from settling an order twice, and [updateEstadoPedido]
    can undo it: for a stored order in any state, paid ones included, when
    the storage does not fail and the method and payload are ones that
    [procesarPago] accepts, making the order pending and settling it
    succeeds, and the stored reference is replaced by the new one. *)
Theorem procesarPago_after_reopening (id : Z) (paymentInfo : PaymentInfo) (w : World)
    (row : PedidoRow) :
  no_storage_faults w →
  pedidos w !! id = Some row →
  metodo_pago row = STRIPE ∨ metodo_pago row = PAYPAL ∨
  (metodo_pago row = TRANSFERENCIA ∧
   paymentInfo ≠ InfoUndefined ∧ paymentInfo ≠ InfoNull) →
  ∃ p w1 referenciaPago' w2 row',
    updateEstadoPedido id PENDIENTE w = (Ok (Some p), w1) ∧
    procesarPago id paymentInfo w1 = (Ok (pago_ok referenciaPago'), w2) ∧
    pedidos w2 !! id = Some row' ∧
    row_estado row' = PAGADO ∧
    referencia_pago row' = Some referenciaPago' ∧
    row_total row' = row_total row ∧
    pedido_items w2 = pedido_items w.
Proof.
  intros Hq Hrow Hmetodo.
  destruct (updateEstado_run id PENDIENTE w) as (o & w1 & E1 & Hrun & Hi1 & _ & _ & Hok).
  destruct (storage_run_quiet _ _ _ Hrun Hq) as [[r ->] Hq1].
  destruct (Hok r eq_refl) as (Hp1 & _ & _ & Hfound).
  rewrite (alter_found _ _ _ _ Hrow) in Hp1. unfold found in Hfound.
  rewrite Hp1, lookup_insert_eq in Hfound. destruct Hfound as (p & -> & _).
  destruct (procesarPago_quiet id paymentInfo w1 Hq1) as (r & w2 & E2 & Hi2 & H).
  rewrite Hp1, lookup_insert_eq in H.
  cbn [row_with_estado row_estado metodo_pago] in H. rewrite decide_True in H by done.
  pose proof (referencia_de_pago_cases (metodo_pago row) paymentInfo w1) as Hcases.
  destruct (referencia_de_pago (metodo_pago row) paymentInfo w1).1 as [[ref |] | e].
  2: { destruct Hcases as (? & ? & ?). by destruct Hmetodo as [? | [? | [? _]]]. }
  2: { destruct Hcases as (Hx & Hy). rewrite Hx in Hmetodo.
       destruct Hmetodo as [? | [? | (_ & ? & ?)]]; [done.. |].
       by destruct Hy as [[? _] | [? _]]. }
  destruct H as (-> & t1 & t2 & Hp2).
  eexists p, w1, ref, w2, _.
  split; [by unfold updateEstadoPedido; tsimpl; rewrite E1 |]. split; [done |].
  split; [by rewrite Hp2, lookup_insert_eq |]. cbn.
  do 3 (split; [done |]). by rewrite Hi2, Hi1.
Qed.

(** The paid order of the examples is made pending and settled again. *)
Lemma procesarPago_after_reopening_witness :
  let w := example_db PAGADO STRIPE (Some "stripe_1_2") [] in
  ∃ p w1 referenciaPago' w2 row',
    updateEstadoPedido 1 PENDIENTE w = (Ok (Some p), w1) ∧
    procesarPago 1 InfoNull w1 = (Ok (pago_ok referenciaPago'), w2) ∧
    pedidos w2 !! 1 = Some row' ∧
    row_estado row' = PAGADO ∧
    referencia_pago row' = Some referenciaPago' ∧
    row_total row' = row_total (example_row PAGADO STRIPE (Some "stripe_1_2")) ∧
    pedido_items w2 = pedido_items w.
Proof.
  apply (procesarPago_after_reopening 1 InfoNull
           (example_db PAGADO STRIPE (Some "stripe_1_2") [])
           (example_row PAGADO STRIPE (Some "stripe_1_2"))).
  - constructor.
  - by vm_compute.
  - by left.
Defined.

(** ** The entity: what the item operations do to the lines *)

Lemma sum_subtotals_snoc (h : loc → PedidoItem) (items : list loc) (item : loc) :
  sum_subtotals h (items ++ [item]) = (sum_subtotals h items + subtotal (h item))%float.
Proof. unfold sum_subtotals. by rewrite foldl_app. Qed.

Lemma sum_subtotals_ext (h h' : loc → PedidoItem) (items : list loc) :
  Forall (λ l, h' l = h l) items → sum_subtotals h' items = sum_subtotals h items.
Proof.
  unfold sum_subtotals. generalize 0%float.
  induction items as [| item items IH]; intros acc Hext; [done |].
  apply Forall_cons in Hext as [E Hext]. cbn [foldl]. rewrite E. by apply IH.
Qed.

(** X11. [removeItem] takes out every line of the product and nothing
    else: no line of the product is left, the lines of every other product
    are the same item objects in the same order, the item objects are not
    touched, and the new total is the sum of the subtotals of the lines
    that are left. Removing the same product once more changes neither the
    lines nor the total. *)
Theorem removeItem_removes (productoId' : Z) (p : Pedido) (w : World) :
  ∃ p' w', removeItem productoId' p w = (Ok p', w') ∧
           heap w' = heap w ∧
           ¬ has_producto w' p' productoId' ∧
           (∀ j, j ≠ productoId' →
                 filter (λ item, productoId (heap w item) = j) (getItems p')
                 = filter (λ item, productoId (heap w item) = j) (getItems p)) ∧
           (getItems p' `sublist_of` getItems p) ∧
           getTotal p' = sum_subtotals (heap w) (getItems p') ∧
           ∃ p'' w'', removeItem productoId' p' w' = (Ok p'', w'') ∧
                      getItems p'' = getItems p' ∧ getTotal p'' = getTotal p'.
Proof.
  pose proof (removeItem_run productoId' p w) as E. cbv zeta in E.
  eexists _, _. split; [exact E |]. wsimpl.
  cbn [getItems getTotal with_updatedAt with_total with_items].
  split; [done |]. split; [| split; [| split; [| split]]].
  - intros (item & Hin & Hid). cbn in Hin. apply list_elem_of_filter in Hin as [Hne _].
    wsimpl. done.
  - intros j Hj. rewrite list_filter_filter. apply list_filter_iff. intros item.
    split; [by intros [? _] | intros <-; by split].
  - apply sublist_filter.
  - done.
  - match goal with |- context [removeItem productoId' ?q ?w0] =>
      pose proof (removeItem_run productoId' q w0) as E' end.
    cbv zeta in E'. eexists _, _. split; [exact E' |]. wsimpl.
    cbn [getItems getTotal with_updatedAt with_total with_items].
    assert (filter (λ item, productoId (heap w item) ≠ productoId')
              (filter (λ item, productoId (heap w item) ≠ productoId') (getItems p))
            = filter (λ item, productoId (heap w item) ≠ productoId') (getItems p)) as ->.
    { rewrite list_filter_filter. apply list_filter_iff. intros item.
      split; [by intros [? _] | done]. }
    done.
Qed.

#[local] Set Warnings "-inexact-float".

(** Amounts with cents: lines of 0.08, 0.01 and 0.15, of which the first
    is removed. The total is the sum of the two lines left as the engine
    adds them, 0.16. *)
Example removeItem_decimal_amounts :
  let h (l : loc) :=
    match l with
    | 0%nat => mkPedidoItem 1 1 0.08 0.08
    | 1%nat => mkPedidoItem 2 1 0.01 0.01
    | _ => mkPedidoItem 3 1 0.15 0.15
    end in
  let w := set_heap (λ _, h) example_entity_world in
  let p := with_items [0%nat; 1%nat; 2%nat] example_pedido in
  ∃ p', (removeItem 1 p w).1 = Ok p' ∧
        getItems p' = [1%nat; 2%nat] ∧ getTotal p' = 0.16%float.
Proof. cbv zeta. eexists. by vm_compute. Qed.

(** X12. [addItem] appends the item as a new line, whatever lines the order
    has: it does not merge it with a line of the same product, the lines
    of that product are the ones there were and the new one, and the total
    is the total over the lines there were plus the item's subtotal. When
    the order had no line of the item's product, removing that product
    afterwards gives back the lines as they were, and the total as it was
    when it was the sum of the subtotals. *)
Theorem addItem_then_removeItem (item : loc) (p : Pedido) (w : World) :
  ∃ p1 w1,
    addItem item p w = (Ok p1, w1) ∧
    heap w1 = heap w ∧
    getItems p1 = getItems p ++ [item] ∧
    filter (λ l, productoId (heap w l) = productoId (heap w item)) (getItems p1)
    = filter (λ l, productoId (heap w l) = productoId (heap w item)) (getItems p)
      ++ [item] ∧
    getTotal p1 = (sum_subtotals (heap w) (getItems p) + subtotal (heap w item))%float ∧
    (¬ has_producto w p (productoId (heap w item)) →
     ∃ p2 w2,
       removeItem (productoId (heap w item)) p1 w1 = (Ok p2, w2) ∧
       getItems p2 = getItems p ∧
       getTotal p2 = sum_subtotals (heap w) (getItems p) ∧
       (total_ok w p → getTotal p2 = getTotal p) ∧
       heap w2 = heap w).
Proof.
  rewrite addItem_run. eexists _, _. split; [done |].
  cbn [getItems getTotal with_updatedAt with_total with_items]. wsimpl.
  split; [done |]. split; [done |]. split; [| split].
  - by rewrite filter_app, filter_cons, decide_True.
  - apply sum_subtotals_snoc.
  - intros Hno.
    match goal with |- context [removeItem ?i ?q ?w0] =>
      pose proof (removeItem_run i q w0) as E end.
    cbv zeta in E. eexists _, _. split; [exact E |]. wsimpl.
    cbn [getItems getTotal with_updatedAt with_total with_items].
    assert (filter (λ item0, productoId (heap w item0) ≠ productoId (heap w item))
              (getItems p ++ [item]) = getItems p) as ->.
    { rewrite filter_app, (filter_absent w p _ Hno).
      rewrite filter_cons, decide_False by (by intros ?). apply app_nil_r. }
    split; [done |]. split; [done |]. split; [| done].
    unfold total_ok. by intros ->.
Qed.

(** A second line of product 1 on the order of the examples: the item
    object 0 is added again, and the order has three lines. *)
Lemma addItem_then_removeItem_witness :
  let w := example_entity_world in
  let p := example_pedido in
  ∃ p1 w1,
    addItem 0%nat p w = (Ok p1, w1) ∧
    getItems p1 = [0%nat; 1%nat; 0%nat] ∧
    filter (λ l, productoId (heap w l) = 1) (getItems p1) = [0%nat; 0%nat] ∧
    getTotal p1 = 225000%float.
Proof.
  cbv zeta.
  destruct (addItem_then_removeItem 0%nat example_pedido example_entity_world)
    as (p1 & w1 & E & _ & Hitems & Hlines & Htotal & _).
  exists p1, w1. split; [done |]. split; [done |]. split; [| by rewrite Htotal].
  by rewrite Hitems.
Defined.

(** X13. [updateItemCantidad] of a product the order has changes one item
    object, the first line of that product, and no other: an order that
    does not hold that object has the same items with the same values, so
    the same sum of subtotals, and keeps a total that was that sum. (An
    order that shares the object with the one updated is not told: its
    total stays what it was.) *)
Theorem updateItemCantidad_first_line (productoId' : Z) (cantidad' : number) (p : Pedido)
    (w : World) :
  has_producto w p productoId' →
  ∃ before item after p' w',
    updateItemCantidad productoId' cantidad' p w = (Ok p', w') ∧
    getItems p = before ++ item :: after ∧
    Forall (λ l, productoId (heap w l) ≠ productoId') before ∧
    productoId (heap w item) = productoId' ∧
    (∀ l, l ≠ item → heap w' l = heap w l) ∧
    ∀ q : Pedido,
      item ∉ getItems q →
      sum_subtotals (heap w') (getItems q) = sum_subtotals (heap w) (getItems q) ∧
      (total_ok w q → total_ok w' q).
Proof.
  intros Hhas. destruct (find_producto_Some _ _ _ Hhas) as (item & E & _).
  destruct (find_first _ _ _ _ E) as (before & after & Hitems & Hb & Hid).
  pose proof (updateItemCantidad_found _ cantidad' _ _ _ E) as Hrun. cbv zeta in Hrun.
  eexists before, item, after, _, _. split; [exact Hrun |].
  wsimpl. do 3 (split; [done |]). unfold heap_update.
  split; [intros l Hl; by rewrite decide_False |].
  intros q Hq.
  assert (sum_subtotals
            (λ l', if decide (l' = item) then update_item_cantidad cantidad' (heap w l')
                   else heap w l') (getItems q)
          = sum_subtotals (heap w) (getItems q)) as Hsum.
  { apply sum_subtotals_ext, Forall_forall. intros l Hl.
    rewrite decide_False; [done |]. by intros ->. }
  split; [done |]. unfold total_ok. wsimpl. intros ->. by rewrite Hsum.
Qed.

(** Three units of product 1 in the order of the examples; an order that
    holds the other item object only keeps its total, one that holds the
    same object is left with the total of before. *)
Lemma updateItemCantidad_first_line_witness :
  let w := example_entity_world in
  let p := example_pedido in
  let q := with_total 25000 (with_items [1%nat] example_pedido) in
  ∃ before item after p' w',
    updateItemCantidad 1 3 p w = (Ok p', w') ∧
    getItems p = before ++ item :: after ∧
    Forall (λ l, productoId (heap w l) ≠ 1) before ∧
    productoId (heap w item) = 1 ∧
    (∀ l, l ≠ item → heap w' l = heap w l) ∧
    total_ok w' q ∧
    getTotal p = 125000%float ∧
    sum_subtotals (heap w') (getItems p) = 175000%float.
Proof.
  cbv zeta.
  destruct (updateItemCantidad_first_line 1 3 example_pedido example_entity_world)
    as (before & item & after & p' & w' & E & H1 & H2 & H3 & H4 & H5).
  { exists 0%nat. split; [by left | by vm_compute]. }
  assert (item = 0%nat) as Hitem.
  { destruct before as [| b before].
    - by injection H1 as <- _.
    - injection H1 as <- _. by apply Forall_cons in H2 as [? _]. }
  exists before, item, after, p', w'. do 5 (split; [done |]).
  split.
  - apply (H5 (with_total 25000 (with_items [1%nat] example_pedido))); [| by vm_compute].
    rewrite Hitem. by intros ?%list_elem_of_singleton.
  - split; [done |]. vm_compute in E. by injection E as _ <-.
Defined.

(** ** The product: stock *)

(** X14. For a stock and a quantity that are whole numbers,
    [decrementarStock] refuses a quantity that is not positive, whatever
    the stock, and a positive one that the stock does not cover, each with
    its own message, changing nothing and reading no clock; a positive
    quantity that a stock of at most [Number.MAX_SAFE_INTEGER] covers is
    taken off: the stock left is not negative, [updatedAt] is stamped and
    no other field changes. *)
Theorem decrementarStock_cases (cantidad : Z) (p : Producto.Producto) (w : World) :
  (cantidad ≤ 0 →
   Producto.decrementarStock cantidad p w
   = (Throw "La cantidad debe ser mayor que cero", w)) ∧
  (0 < cantidad → Producto.getStock p < cantidad →
   Producto.decrementarStock cantidad p w = (Throw "Stock insuficiente", w)) ∧
  (0 < cantidad ≤ Producto.getStock p → Producto.getStock p ≤ MAX_SAFE_INTEGER →
   ∃ p', Producto.decrementarStock cantidad p w = (Ok p', set_clock tail w) ∧
         Producto.getStock p' = Producto.getStock p - cantidad ∧
         0 ≤ Producto.getStock p' ∧
         Producto.getUpdatedAt p' = default 0 (head (clock w)) ∧
         Producto.getId p' = Producto.getId p ∧
         Producto.getNombre p' = Producto.getNombre p ∧
         Producto.getDescripcion p' = Producto.getDescripcion p ∧
         Producto.getPrecio p' = Producto.getPrecio p ∧
         Producto.getCategoria p' = Producto.getCategoria p ∧
         Producto.getArtesano p' = Producto.getArtesano p ∧
         Producto.getCreatedAt p' = Producto.getCreatedAt p).
Proof.
  unfold Producto.decrementarStock, Producto.touch.
  split; [| split].
  - intros Hc. by rewrite decide_True.
  - intros Hc Hs. rewrite decide_False by lia. by rewrite decide_True.
  - intros [Hc Hs] _. rewrite decide_False by lia. rewrite decide_False by lia.
    msimpl. eexists. split; [done |]. cbn. split; [done |]. split; [lia | done].
Qed.

(** Two units in stock: none and three are refused, two are taken. *)
Lemma decrementarStock_cases_witness :
  Producto.decrementarStock 0 example_producto example_entity_world
  = (Throw "La cantidad debe ser mayor que cero", example_entity_world) ∧
  Producto.decrementarStock 3 example_producto example_entity_world
  = (Throw "Stock insuficiente", example_entity_world) ∧
  ∃ p', Producto.decrementarStock 2 example_producto example_entity_world
        = (Ok p', set_clock tail example_entity_world) ∧
        Producto.getStock p' = 0.
Proof.
  split; [| split].
  - by apply (proj1 (decrementarStock_cases 0 example_producto example_entity_world)).
  - by apply (proj1 (proj2 (decrementarStock_cases 3 example_producto example_entity_world))).
  - destruct (proj2 (proj2 (decrementarStock_cases 2 example_producto example_entity_world)))
      as (p' & E & Hs & _); [done | by vm_compute |].
    by exists p'.
Defined.

Lemma stock_step_not_negative (s : World * Producto.Producto) (op : StockOp) :
  0 ≤ Producto.getStock s.2 → 0 ≤ Producto.getStock (stock_step s op).2.
Proof.
  destruct s as [w p]. unfold stock_step. cbn [fst snd]. intros Hp.
  destruct op as [c | c]; cbn [apply_stock_op];
    unfold Producto.decrementarStock, Producto.incrementarStock, Producto.touch;
    repeat case_decide; msimpl; cbn; lia.
Qed.

(** X15. Through any sequence of [decrementarStock] and [incrementarStock]
    calls, whether they return or throw, a stock that is not negative stays
    not negative. *)
Theorem stock_never_negative (ops : list StockOp) (s : World * Producto.Producto) :
  0 ≤ Producto.getStock s.2 →
  0 ≤ Producto.getStock (foldl stock_step s ops).2.
Proof.
  revert s. induction ops as [| op ops IH]; intros s Hs; [done |].
  cbn [foldl]. by apply IH, stock_step_not_negative.
Qed.

(** Two units in stock: three are refused, two are taken, one more is
    refused, five are added. *)
Lemma stock_never_negative_witness :
  let s := (example_entity_world, example_producto) in
  let ops := [Decrementar 3; Decrementar 2; Decrementar 1; Incrementar 5] in
  0 ≤ Producto.getStock (foldl stock_step s ops).2 ∧
  Producto.getStock (foldl stock_step s ops).2 = 5.
Proof.
  cbv zeta. split.
  - apply (stock_never_negative
             [Decrementar 3; Decrementar 2; Decrementar 1; Incrementar 5]
             (example_entity_world, example_producto)).
    by vm_compute.
  - by vm_compute.
Defined.

(** ** The culture: traditions *)

(** X17. [addTradicion] keeps the traditions free of repetitions: a
    tradition that is there already changes nothing, not even [updatedAt],
    and no clock is read; a new one is put at the end. Either way the
    tradition is there afterwards, and adding it again changes nothing. *)
Theorem addTradicion_once (tradicion : string) (c : Cultura.Cultura) (w : World) :
  ∃ c' w', Cultura.addTradicion tradicion c w = (Ok c', w') ∧
           tradicion ∈ Cultura.getTradiciones c' ∧
           (tradicion ∈ Cultura.getTradiciones c → c' = c ∧ w' = w) ∧
           (tradicion ∉ Cultura.getTradiciones c →
            Cultura.getTradiciones c' = Cultura.getTradiciones c ++ [tradicion] ∧
            Cultura.getUpdatedAt c' = default 0 (head (clock w))) ∧
           (NoDup (Cultura.getTradiciones c) → NoDup (Cultura.getTradiciones c')) ∧
           Cultura.addTradicion tradicion c' w' = (Ok c', w').
Proof.
  unfold Cultura.addTradicion at 1. case_decide as Hin.
  - exists c, w. split; [done |]. split; [done |]. split; [done |]. split; [done |].
    split; [done |]. unfold Cultura.addTradicion. by rewrite decide_True.
  - unfold Cultura.touch. msimpl. eexists _, _. split; [done |]. cbn.
    split; [apply elem_of_app; right; by left |]. split; [done |]. split; [done |].
    split.
    + intros Hnd. apply NoDup_app. split; [done |]. split; [| apply NoDup_singleton].
      by intros t Ht ->%list_elem_of_singleton.
    + unfold Cultura.addTradicion. rewrite decide_True; [done |]. cbn.
      apply elem_of_app; right; by left.
Qed.

(** X18. [removeTradicion] takes out every occurrence of the tradition and
    keeps the others in their order, and stamps [updatedAt] even when the
    tradition was not there. It undoes an [addTradicion] of a tradition
    that was not there. *)
Theorem removeTradicion_removes (tradicion : string) (c : Cultura.Cultura) (w : World) :
  ∃ c' w', Cultura.removeTradicion tradicion c w = (Ok c', w') ∧
           (tradicion ∉ Cultura.getTradiciones c') ∧
           (∀ t, t ≠ tradicion →
                 filter (λ t', t' = t) (Cultura.getTradiciones c')
                 = filter (λ t', t' = t) (Cultura.getTradiciones c)) ∧
           (Cultura.getTradiciones c' `sublist_of` Cultura.getTradiciones c) ∧
           Cultura.getUpdatedAt c' = default 0 (head (clock w)) ∧
           (tradicion ∉ Cultura.getTradiciones c →
            Cultura.getTradiciones c' = Cultura.getTradiciones c ∧
            ∃ c1 w1 c2 w2,
              Cultura.addTradicion tradicion c w = (Ok c1, w1) ∧
              Cultura.removeTradicion tradicion c1 w1 = (Ok c2, w2) ∧
              Cultura.getTradiciones c2 = Cultura.getTradiciones c).
Proof.
  assert (∀ l : list string, tradicion ∉ l → filter (λ t, t ≠ tradicion) l = l) as Habs.
  { induction l as [| t l IH]; [done |]. intros Hno.
    apply not_elem_of_cons in Hno as [Hne Hno].
    rewrite filter_cons, decide_True by done. by rewrite IH. }
  unfold Cultura.removeTradicion, Cultura.touch. msimpl. eexists _, _. split; [done |]. cbn.
  split; [| split; [| split; [| split; [done |]]]].
  - by intros [? _]%list_elem_of_filter.
  - intros t Ht. rewrite list_filter_filter. apply list_filter_iff. intros t'.
    split; [by intros [? _] | intros ->; by split].
  - apply sublist_filter.
  - intros Hno. split; [by apply Habs |].
    unfold Cultura.addTradicion. rewrite decide_False by done.
    unfold Cultura.touch. msimpl. eexists _, _, _, _. split; [done |]. split; [done |].
    cbn. rewrite filter_app, Habs by done.
    rewrite filter_cons, decide_False by (by intros ?). apply app_nil_r.
Qed.

(** ** The cache *)

(** X19. A value that [set] stores is what a later [get] of the key
    answers, unless it has expired by then: it was stored with mode [EX]
    and a time that is not zero, and the expiry, the time of the [set] plus
    a thousand times that time, is not zero and lies before the time of the
    [get]. An expired value is answered by [null] and evicted; otherwise
    the [get] leaves the cache as it is. *)
Theorem set_then_get (key value : string) (expiryMode : option string) (time : option Z)
    (now later : Z) (cache : RedisMock.Cache) :
  let stored := RedisMock.set key value expiryMode time now cache in
  let answer := RedisMock.get key later stored in
  (expires expiryMode time now later →
   answer = (None, delete key cache)) ∧
  (¬ expires expiryMode time now later →
   answer = (Some value, stored)).
Proof.
  cbv zeta. unfold RedisMock.get, RedisMock.set, expires. cbv zeta.
  rewrite lookup_insert_eq. unfold RedisMock.expired. cbn [RedisMock.expiry RedisMock.value].
  destruct (decide (expiryMode = Some "EX")) as [-> | Hm].
  2: { split; [by intros [? _] | done]. }
  destruct time as [t |]; [| split; [by intros (_ & ? & ? & _) | done]].
  destruct (decide (t ≠ 0)) as [Ht | Ht].
  2: { split; [intros (_ & ? & [= <-] & ? & _); done | done]. }
  destruct (decide (now + t * 1000 ≠ 0 ∧ now + t * 1000 < later)) as [He | He].
  - split; [intros _; by rewrite delete_insert_eq | intros Hno].
    destruct Hno. split; [done |]. exists t. by destruct He.
  - split; [| done]. intros (_ & t' & [= <-] & _ & ? & ?). by destruct He.
Qed.

Lemma lookup_get_ne (key key' : string) (later : Z) (cache : RedisMock.Cache) :
  key' ≠ key → (RedisMock.get key later cache).2 !! key' = cache !! key'.
Proof.
  intros Hne. unfold RedisMock.get. destruct (cache !! key) as [item |]; [| done].
  case_decide; [| done]. cbn. by rewrite lookup_delete_ne.
Qed.

Lemma get_lookup (key : string) (later : Z) (c1 c2 : RedisMock.Cache) :
  c1 !! key = c2 !! key → (RedisMock.get key later c1).1 = (RedisMock.get key later c2).1.
Proof.
  intros E. unfold RedisMock.get. rewrite E. destruct (c2 !! key); [| done].
  by case_decide.
Qed.

(** X20. What a [get] of a key answers does not depend on a [set], a [get]
    or a [del] of another key made before it. *)
Theorem get_other_key (key key' : string) (later : Z) (cache : RedisMock.Cache) :
  key' ≠ key →
  (∀ value expiryMode time now,
     (RedisMock.get key' later (RedisMock.set key value expiryMode time now cache)).1
     = (RedisMock.get key' later cache).1) ∧
  (∀ now,
     (RedisMock.get key' later (RedisMock.get key now cache).2).1
     = (RedisMock.get key' later cache).1) ∧
  (RedisMock.get key' later (RedisMock.del key cache).2).1
  = (RedisMock.get key' later cache).1.
Proof.
  intros Hne. split; [| split].
  - intros value expiryMode time now. apply get_lookup.
    unfold RedisMock.set. by rewrite lookup_insert_ne.
  - intros now. by apply get_lookup, lookup_get_ne.
  - apply get_lookup. unfold RedisMock.del. cbn. by rewrite lookup_delete_ne.
Qed.

Lemma get_other_key_witness :
  (RedisMock.get "producto:1" 2000
     (RedisMock.set "producto:2" "trenza" None None 1500 example_cache)).1 = Some "manta" ∧
  (RedisMock.get "producto:1" 2000 example_cache).1 = Some "manta".
Proof.
  split; [| by vm_compute].
  rewrite (proj1 (get_other_key "producto:2" "producto:1" 2000 example_cache
                    ltac:(done)) "trenza" None None 1500).
  by vm_compute.
Defined.

(** X21. [del] answers 1 exactly when the key was in the cache, expired or
    not, and 0 otherwise; after it, and after [flushall], a [get] of the
    key answers [null] and a [del] of it answers 0. *)
Theorem del_then_get (key : string) (later : Z) (cache : RedisMock.Cache) :
  ((RedisMock.del key cache).1 = 1 ↔ is_Some (cache !! key)) ∧
  ((RedisMock.del key cache).1 = 0 ↔ cache !! key = None) ∧
  (RedisMock.get key later (RedisMock.del key cache).2).1 = None ∧
  (RedisMock.del key (RedisMock.del key cache).2).1 = 0 ∧
  (RedisMock.get key later (RedisMock.flushall cache)).1 = None ∧
  (RedisMock.del key (RedisMock.flushall cache)).1 = 0.
Proof.
  unfold RedisMock.del, RedisMock.get, RedisMock.flushall. cbn [fst snd].
  rewrite lookup_delete_eq, lookup_empty.
  destruct (cache !! key) as [item |].
  - split; [split; [by eexists | done] |]. by split.
  - split; [split; [done | by intros [? ?]] |]. by split.
Qed.
